(** * A shallow embedding of ChessEngine.py

    The engine is a Python class [GameState] whose methods read and mutate
    the fields of [self], may raise [IndexError], [KeyError] or [ValueError],
    write lines to standard output ([print]) and, in one place, read a line
    from standard input ([input]).  The embedding keeps all of this:

    - Python values: integers are [Z], piece tokens are [string]s, lists are
      [list]s indexed the Python way (negative indices count from the end,
      anything else out of range raises [IndexError]);
    - effects: a computation is a tree of type [Eff] (return, raise, print,
      input) and a method is a function from the state of [self] to such a
      tree carrying the result and the new state ([M]);
    - loops: [for] loops with [break] are folds over the range they iterate. *)

From Stdlib Require Import ZArith List String Ascii Bool Lia.
Import ListNotations.

#[local] Open Scope string_scope.
#[local] Open Scope list_scope.
#[local] Open Scope Z_scope.

(** ** Python lists and strings *)

Module Py.

(** Position of index [i] in a list of length [n]: [0 <= i < n] is itself,
    [-n <= i < 0] counts from the end, anything else is out of range. *)
Definition index (n : nat) (i : Z) : option nat :=
  if (0 <=? i) && (i <? Z.of_nat n) then Some (Z.to_nat i)
  else if (- Z.of_nat n <=? i) && (i <? 0) then Some (Z.to_nat (Z.of_nat n + i))
  else None.

(** [l[i]] *)
Definition getitem {A : Type} (l : list A) (i : Z) : option A :=
  match index (List.length l) i with
  | Some k => nth_error l k
  | None => None
  end.

Fixpoint set_nth {A : Type} (l : list A) (k : nat) (v : A) : list A :=
  match l, k with
  | [], _ => []
  | _ :: t, O => v :: t
  | h :: t, S k' => h :: set_nth t k' v
  end.

(** [l[i] = v] *)
Definition setitem {A : Type} (l : list A) (i : Z) (v : A) : option (list A) :=
  match index (List.length l) i with
  | Some k => Some (set_nth l k v)
  | None => None
  end.

(** [l.pop()]: the list without its last element, and that element. *)
Definition pop {A : Type} (l : list A) : option (list A * A) :=
  match rev l with
  | [] => None
  | x :: r => Some (rev r, x)
  end.

(** [l.remove(x)]: drops the first element equal to [x]; [None] stands for
    the [ValueError] raised when there is none. *)
Fixpoint remove {A : Type} (eqb : A -> A -> bool) (x : A) (l : list A)
  : option (list A) :=
  match l with
  | [] => None
  | h :: t =>
      if eqb h x then Some t
      else match remove eqb x t with
           | Some t' => Some (h :: t')
           | None => None
           end
  end.

(** [x in l] *)
Definition contains {A : Type} (eqb : A -> A -> bool) (x : A) (l : list A) : bool :=
  existsb (fun y => eqb y x) l.

(** [range(a, b)] *)
Definition range (a b : Z) : list Z :=
  map (fun k => a + Z.of_nat k) (seq 0 (Z.to_nat (b - a))).

(** [range(a, -1, -1)]: a, a-1, ..., 0 *)
Definition range_down (a : Z) : list Z :=
  map (fun k => a - Z.of_nat k) (seq 0 (Z.to_nat (a + 1))).

(** [s[i]] for the two indices the engine uses, 0 and 1. *)
Definition char (s : string) (i : nat) : option ascii := String.get i s.

Definition upper_char (c : ascii) : ascii :=
  let n := nat_of_ascii c in
  if (97 <=? n)%nat && (n <=? 122)%nat then ascii_of_nat (n - 32) else c.

(** [s.upper()] for a string of ASCII characters, the strings this embedding
    represents: a..z become A..Z and every other ASCII character is kept.
    Python's [str.upper] also maps cased letters outside ASCII, which have no
    counterpart here; what is proved of a line read from [input] is therefore
    stated for lines of ASCII letters only. *)
Fixpoint upper (s : string) : string :=
  match s with
  | EmptyString => EmptyString
  | String c t => String (upper_char c) (upper t)
  end.

End Py.

(** ** Effects *)

Inductive exn : Type := IndexError | KeyError | ValueError.

Inductive Eff (A : Type) : Type :=
| Ret (a : A)
| Raise (e : exn)
| Print (line : string) (k : Eff A)
| Input (prompt : string) (k : string -> Eff A).

Arguments Ret {A} a.
Arguments Raise {A} e.
Arguments Print {A} line k.
Arguments Input {A} prompt k.

Fixpoint ebind {A B : Type} (e : Eff A) (f : A -> Eff B) : Eff B :=
  match e with
  | Ret a => f a
  | Raise x => Raise x
  | Print l k => Print l (ebind k f)
  | Input p k => Input p (fun ans => ebind (k ans) f)
  end.

(** [yields e a]: [e] returns [a] after printing, without raising and without
    reading input. *)
Inductive yields {A : Type} : Eff A -> A -> Prop :=
| yields_ret : forall a, yields (Ret a) a
| yields_print : forall l k a, yields k a -> yields (Print l k) a.

(** The value of a computation whose [input] calls are all answered [ans]. *)
Fixpoint answer {A : Type} (ans : string) (e : Eff A) : option A :=
  match e with
  | Ret a => Some a
  | Print _ k => answer ans k
  | Raise _ => None
  | Input _ k => answer ans (k ans)
  end.

(** ** The data model *)

Definition Square : Type := Z * Z.
Definition Ray : Type := Z * Z * Z * Z.

Definition square_eqb (a b : Square) : bool :=
  (fst a =? fst b) && (snd a =? snd b).

Definition ray_eqb (a b : Ray) : bool :=
  match a, b with
  | (a1, a2, a3, a4), (b1, b2, b3, b4) =>
      (a1 =? b1) && (a2 =? b2) && (a3 =? b3) && (a4 =? b4)
  end.

(** A direction variable that is either the empty tuple [()] or a pair. *)
Definition dir_is (d : option Square) (e : Square) : bool :=
  match d with
  | Some x => square_eqb x e
  | None => false
  end.

Definition Board : Type := list (list string).

(** [b[r][c]] *)
Definition cell (b : Board) (r c : Z) : option string :=
  match Py.getitem b r with
  | Some row => Py.getitem row c
  | None => None
  end.

(** [b[r][c] = v] *)
Definition set_cell (b : Board) (r c : Z) (v : string) : option Board :=
  match Py.getitem b r with
  | Some row =>
      match Py.setitem row c v with
      | Some row' => Py.setitem b r row'
      | None => None
      end
  | None => None
  end.

Record CastlingRights : Type := mkCastlingRights {
  wks : bool;
  bks : bool;
  wqs : bool;
  bqs : bool
}.

(** A [Move] object.  The Python object also keeps [self.board], a reference
    to the grid it was built from; only [get_pgn] reads it. *)
Record Move : Type := mkMove {
  start_r : Z;
  start_c : Z;
  end_r : Z;
  end_c : Z;
  piece_moved : string;
  piece_captured : string;
  is_pawn_promotion : bool;
  is_en_passant : bool;
  is_castling : bool;
  move_id : Z
}.

(** [Move.__init__].  [move_id] is computed in the source with the float
    literals 1e3, 1e2, 1e1, 1e0 and truncated by [int]; on integers of the
    size of a board coordinate that arithmetic is exact. *)
Definition Move_init (start_square end_square : Square) (b : Board)
    (promo ep castle : bool) : option Move :=
  let sr := fst start_square in
  let sc := snd start_square in
  let er := fst end_square in
  let ec := snd end_square in
  match cell b sr sc with
  | None => None
  | Some pm =>
      match cell b er ec with
      | None => None
      | Some pc =>
          let pc' := if ep then (if String.eqb pm "wP" then "bP" else "wP") else pc in
          Some (mkMove sr sc er ec pm pc' promo ep castle
                       (sr * 1000 + sc * 100 + er * 10 + ec * 1))
      end
  end.

(** [Move.__eq__] between two [Move] objects. *)
Definition Move_eq (m other : Move) : bool := move_id m =? move_id other.

Record GameState : Type := mkGameState {
  board : Board;
  white_to_move : bool;
  move_log : list Move;
  white_king_location : Square;
  black_king_location : Square;
  current_player_is_in_check : bool;
  checks : list Ray;
  pins : list Ray;
  checkmate : bool;
  stalemate : bool;
  en_passant_possible : option Square;
  current_castling_rights : CastlingRights;
  castling_rights_log : list CastlingRights
}.

Definition knight_dirs : list Square :=
  [(-2, -1); (-2, 1); (-1, -2); (-1, 2); (1, -2); (1, 2); (2, -1); (2, 1)].
Definition bishop_dirs : list Square := [(-1, -1); (-1, 1); (1, -1); (1, 1)].
Definition rook_dirs : list Square := [(-1, 0); (0, -1); (1, 0); (0, 1)].
Definition king_dirs : list Square :=
  [(-1, 0); (0, -1); (1, 0); (0, 1); (-1, -1); (-1, 1); (1, -1); (1, 1)].

(** [GameState.__init__] *)
Definition new_game : GameState := {|
  board := [
    ["bR"; "bN"; "bB"; "bQ"; "bK"; "bB"; "bN"; "bR"];
    ["bP"; "bP"; "bP"; "bP"; "bP"; "bP"; "bP"; "bP"];
    ["--"; "--"; "--"; "--"; "--"; "--"; "--"; "--"];
    ["--"; "--"; "--"; "--"; "--"; "--"; "--"; "--"];
    ["--"; "--"; "--"; "--"; "--"; "--"; "--"; "--"];
    ["--"; "--"; "--"; "--"; "--"; "--"; "--"; "--"];
    ["wP"; "wP"; "wP"; "wP"; "wP"; "wP"; "wP"; "wP"];
    ["wR"; "wN"; "wB"; "wQ"; "wK"; "wB"; "wN"; "wR"]
  ];
  white_to_move := true;
  move_log := [];
  white_king_location := (7, 4);
  black_king_location := (0, 4);
  current_player_is_in_check := false;
  checks := [];
  pins := [];
  checkmate := false;
  stalemate := false;
  en_passant_possible := None;
  current_castling_rights := mkCastlingRights true true true true;
  castling_rights_log := [mkCastlingRights true true true true]
|}.

(** Field updates of [self]. *)
Definition with_board (b : Board) (s : GameState) : GameState :=
  mkGameState b (white_to_move s) (move_log s) (white_king_location s)
    (black_king_location s) (current_player_is_in_check s) (checks s) (pins s)
    (checkmate s) (stalemate s) (en_passant_possible s)
    (current_castling_rights s) (castling_rights_log s).
Definition with_white_to_move (w : bool) (s : GameState) : GameState :=
  mkGameState (board s) w (move_log s) (white_king_location s)
    (black_king_location s) (current_player_is_in_check s) (checks s) (pins s)
    (checkmate s) (stalemate s) (en_passant_possible s)
    (current_castling_rights s) (castling_rights_log s).
Definition with_move_log (l : list Move) (s : GameState) : GameState :=
  mkGameState (board s) (white_to_move s) l (white_king_location s)
    (black_king_location s) (current_player_is_in_check s) (checks s) (pins s)
    (checkmate s) (stalemate s) (en_passant_possible s)
    (current_castling_rights s) (castling_rights_log s).
Definition with_white_king_location (k : Square) (s : GameState) : GameState :=
  mkGameState (board s) (white_to_move s) (move_log s) k
    (black_king_location s) (current_player_is_in_check s) (checks s) (pins s)
    (checkmate s) (stalemate s) (en_passant_possible s)
    (current_castling_rights s) (castling_rights_log s).
Definition with_black_king_location (k : Square) (s : GameState) : GameState :=
  mkGameState (board s) (white_to_move s) (move_log s) (white_king_location s)
    k (current_player_is_in_check s) (checks s) (pins s)
    (checkmate s) (stalemate s) (en_passant_possible s)
    (current_castling_rights s) (castling_rights_log s).
Definition with_check_data (c : bool) (p k : list Ray) (s : GameState) : GameState :=
  mkGameState (board s) (white_to_move s) (move_log s) (white_king_location s)
    (black_king_location s) c k p
    (checkmate s) (stalemate s) (en_passant_possible s)
    (current_castling_rights s) (castling_rights_log s).
Definition with_pins (p : list Ray) (s : GameState) : GameState :=
  mkGameState (board s) (white_to_move s) (move_log s) (white_king_location s)
    (black_king_location s) (current_player_is_in_check s) (checks s) p
    (checkmate s) (stalemate s) (en_passant_possible s)
    (current_castling_rights s) (castling_rights_log s).
Definition with_checkmate (c : bool) (s : GameState) : GameState :=
  mkGameState (board s) (white_to_move s) (move_log s) (white_king_location s)
    (black_king_location s) (current_player_is_in_check s) (checks s) (pins s)
    c (stalemate s) (en_passant_possible s)
    (current_castling_rights s) (castling_rights_log s).
Definition with_stalemate (c : bool) (s : GameState) : GameState :=
  mkGameState (board s) (white_to_move s) (move_log s) (white_king_location s)
    (black_king_location s) (current_player_is_in_check s) (checks s) (pins s)
    (checkmate s) c (en_passant_possible s)
    (current_castling_rights s) (castling_rights_log s).
Definition with_en_passant_possible (e : option Square) (s : GameState) : GameState :=
  mkGameState (board s) (white_to_move s) (move_log s) (white_king_location s)
    (black_king_location s) (current_player_is_in_check s) (checks s) (pins s)
    (checkmate s) (stalemate s) e
    (current_castling_rights s) (castling_rights_log s).
Definition with_current_castling_rights (r : CastlingRights) (s : GameState) : GameState :=
  mkGameState (board s) (white_to_move s) (move_log s) (white_king_location s)
    (black_king_location s) (current_player_is_in_check s) (checks s) (pins s)
    (checkmate s) (stalemate s) (en_passant_possible s)
    r (castling_rights_log s).
Definition with_castling_rights_log (l : list CastlingRights) (s : GameState) : GameState :=
  mkGameState (board s) (white_to_move s) (move_log s) (white_king_location s)
    (black_king_location s) (current_player_is_in_check s) (checks s) (pins s)
    (checkmate s) (stalemate s) (en_passant_possible s)
    (current_castling_rights s) l.

(** ** Methods as state transformers *)

Definition M (A : Type) : Type := GameState -> Eff (A * GameState).

Definition ret {A : Type} (a : A) : M A := fun s => Ret (a, s).
Definition bind {A B : Type} (m : M A) (f : A -> M B) : M B :=
  fun s => ebind (m s) (fun p => f (fst p) (snd p)).
Definition raise {A : Type} (e : exn) : M A := fun _ => Raise e.
Definition print (line : string) : M unit := fun s => Print line (Ret (tt, s)).
Definition input (prompt : string) : M string :=
  fun s => Input prompt (fun ans => Ret (ans, s)).
(** Reading a field of [self]. *)
Definition self {A : Type} (f : GameState -> A) : M A := fun s => Ret (f s, s).
(** Assigning a field of [self]. *)
Definition assign (f : GameState -> GameState) : M unit := fun s => Ret (tt, f s).
(** A partial operation that raises [e] where it is undefined. *)
Definition orraise {A : Type} (e : exn) (o : option A) : M A :=
  match o with
  | Some a => ret a
  | None => raise e
  end.

Notation "x <- m ;; k" := (bind m (fun x => k))
  (at level 61, m at next level, right associativity).
Notation "m ;;; k" := (bind m (fun _ => k))
  (at level 61, right associativity).

(** What one iteration of a loop body decides. *)
Inductive Ctl (S : Type) : Type :=
| Continue (st : S)
| Break (st : S).
Arguments Continue {S} st.
Arguments Break {S} st.

(** [for x in xs: body], the loop variables threaded as [st]. *)
Fixpoint for_loop {X S : Type} (xs : list X) (body : X -> S -> M (Ctl S)) (st : S)
  : M S :=
  match xs with
  | [] => ret st
  | x :: xs' =>
      c <- body x st ;;
      match c with
      | Continue st' => for_loop xs' body st'
      | Break st' => ret st'
      end
  end.

(** [self.board[r][c]] *)
Definition board_at (r c : Z) : M string :=
  b <- self board ;; orraise IndexError (cell b r c).

(** [self.board[r][c] = v] *)
Definition board_set (r c : Z) (v : string) : M unit :=
  b <- self board ;;
  b' <- orraise IndexError (set_cell b r c v) ;;
  assign (with_board b').

(** [p[i]] on a piece token. *)
Definition char_at (p : string) (i : nat) : M ascii :=
  orraise IndexError (Py.char p i).

(** [Move(start_square, end_square, b=self.board, ...)] *)
Definition new_Move (start_square end_square : Square) (promo ep castle : bool)
  : M Move :=
  b <- self board ;;
  orraise IndexError (Move_init start_square end_square b promo ep castle).

(** An [if] without [else]. *)
Definition when (c : bool) (m : M unit) : M unit := if c then m else ret tt.

(** ** The mutator *)

(** [GameState.update_castling_rights].  The source assigns to the fields of
    the object [self.current_castling_rights]; the entries of the rights log
    are separate copies, so no other object changes. *)
Definition set_wks (v : bool) (r : CastlingRights) := mkCastlingRights v (bks r) (wqs r) (bqs r).
Definition set_bks (v : bool) (r : CastlingRights) := mkCastlingRights (wks r) v (wqs r) (bqs r).
Definition set_wqs (v : bool) (r : CastlingRights) := mkCastlingRights (wks r) (bks r) v (bqs r).
Definition set_bqs (v : bool) (r : CastlingRights) := mkCastlingRights (wks r) (bks r) (wqs r) v.

Definition clear_right (f : bool -> CastlingRights -> CastlingRights) : M unit :=
  assign (fun s => with_current_castling_rights (f false (current_castling_rights s)) s).

Definition update_castling_rights (m : Move) : M unit :=
  (if String.eqb (piece_moved m) "wK" then
     clear_right set_wks ;;; clear_right set_wqs
   else if String.eqb (piece_moved m) "bK" then
     clear_right set_bks ;;; clear_right set_bqs
   else if String.eqb (piece_moved m) "wR" then
     when (start_r m =? 7)
       (if start_c m =? 0 then clear_right set_wqs
        else if start_c m =? 7 then clear_right set_wks
        else ret tt)
   else if String.eqb (piece_moved m) "bR" then
     when (start_r m =? 0)
       (if start_c m =? 0 then clear_right set_bqs
        else if start_c m =? 7 then clear_right set_bks
        else ret tt)
   else ret tt) ;;;
  b <- self board ;;
  let last := Z.of_nat (List.length b) - 1 in
  if String.eqb (piece_captured m) "wR" then
    when (end_r m =? last)
      (if end_c m =? 0 then clear_right set_wqs
       else if end_c m =? last then clear_right set_wks
       else ret tt)
  else if String.eqb (piece_captured m) "bR" then
    when (end_r m =? 0)
      (if end_c m =? 0 then clear_right set_bqs
       else if end_c m =? last then clear_right set_bks
       else ret tt)
  else ret tt.

(** [m.piece_moved[1] == "P" and abs(m.start_r - m.end_r) == 2] *)
Definition two_square_pawn_advance (m : Move) : M bool :=
  k <- char_at (piece_moved m) 1 ;;
  ret (Ascii.eqb k "P" && (Z.abs (start_r m - end_r m) =? 2)).

Definition promotion_prompt : string := "Please choose 'Q', 'R', 'B', or 'N': ".

(** [GameState.make_move] *)
Definition make_move (m : Move) : M unit :=
  board_set (start_r m) (start_c m) "--" ;;;
  board_set (end_r m) (end_c m) (piece_moved m) ;;;
  assign (fun s => with_move_log (move_log s ++ [m]) s) ;;;
  assign (fun s => with_white_to_move (negb (white_to_move s)) s) ;;;
  (if String.eqb (piece_moved m) "wK" then
     assign (with_white_king_location (end_r m, end_c m))
   else if String.eqb (piece_moved m) "bK" then
     assign (with_black_king_location (end_r m, end_c m))
   else ret tt) ;;;
  two <- two_square_pawn_advance m ;;
  (if two then
     assign (with_en_passant_possible (Some ((start_r m + end_r m) / 2, end_c m)))
   else
     assign (with_en_passant_possible None)) ;;;
  when (is_en_passant m) (board_set (start_r m) (end_c m) "--") ;;;
  when (is_pawn_promotion m)
    (reply <- input promotion_prompt ;;
     let promoted_piece := Py.upper reply in
     let promoted_piece := if String.eqb promoted_piece EmptyString then "Q" else promoted_piece in
     color <- char_at (piece_moved m) 0 ;;
     board_set (end_r m) (end_c m) (String color promoted_piece)) ;;;
  when (is_castling m)
    (if end_c m - start_c m =? 2 then
       rook <- board_at (end_r m) (end_c m + 1) ;;
       board_set (end_r m) (end_c m - 1) rook ;;;
       board_set (end_r m) (end_c m + 1) "--"
     else
       rook <- board_at (end_r m) (end_c m - 2) ;;
       board_set (end_r m) (end_c m + 1) rook ;;;
       board_set (end_r m) (end_c m - 2) "--") ;;;
  update_castling_rights m ;;;
  assign (fun s =>
    with_castling_rights_log
      (castling_rights_log s ++
         [mkCastlingRights (wks (current_castling_rights s))
                           (bks (current_castling_rights s))
                           (wqs (current_castling_rights s))
                           (bqs (current_castling_rights s))]) s).

(** [GameState.undo_move] *)
Definition undo_move : M unit :=
  log <- self move_log ;;
  if 0 <? Z.of_nat (List.length log) then
    popped <- orraise IndexError (Py.pop log) ;;
    assign (with_move_log (fst popped)) ;;;
    let m := snd popped in
    board_set (start_r m) (start_c m) (piece_moved m) ;;;
    board_set (end_r m) (end_c m) (piece_captured m) ;;;
    assign (fun s => with_white_to_move (negb (white_to_move s)) s) ;;;
    (if String.eqb (piece_moved m) "wK" then
       assign (with_white_king_location (start_r m, start_c m))
     else if String.eqb (piece_moved m) "bK" then
       assign (with_black_king_location (start_r m, start_c m))
     else ret tt) ;;;
    when (is_en_passant m)
      (board_set (end_r m) (end_c m) "--" ;;;
       board_set (start_r m) (end_c m) (piece_captured m) ;;;
       assign (with_en_passant_possible (Some (end_r m, end_c m)))) ;;;
    two <- two_square_pawn_advance m ;;
    when two (assign (with_en_passant_possible None)) ;;;
    rlog <- self castling_rights_log ;;
    rpopped <- orraise IndexError (Py.pop rlog) ;;
    assign (with_castling_rights_log (fst rpopped)) ;;;
    ccr <- orraise IndexError (Py.getitem (fst rpopped) (-1)) ;;
    assign (with_current_castling_rights
              (mkCastlingRights (wks ccr) (bks ccr) (wqs ccr) (bqs ccr))) ;;;
    when (is_castling m)
      (if end_c m - start_c m =? 2 then
         rook <- board_at (end_r m) (end_c m - 1) ;;
         board_set (end_r m) (end_c m + 1) rook ;;;
         board_set (end_r m) (end_c m - 1) "--"
       else
         rook <- board_at (end_r m) (end_c m + 1) ;;
         board_set (end_r m) (end_c m - 2) rook ;;;
         board_set (end_r m) (end_c m + 1) "--")
  else ret tt.

(** ** The attack, check and pin detector *)

(** [0 <= r < 8 and 0 <= c < 8] *)
Definition on_board (r c : Z) : bool :=
  ((0 <=? r) && (r <? 8)) && ((0 <=? c) && (c <? 8)).

(** A list with the index of each element, for loops written
    [for j in range(len(l)): x = l[j]]. *)
Definition indexed {A : Type} (l : list A) : list (Z * A) :=
  combine (Py.range 0 (Z.of_nat (List.length l))) l.

(** The condition under which an enemy piece of kind [piece_type], met at
    distance [dist] on ray number [j] of [king_dirs], attacks the origin of
    the ray.  [search_for_pins_and_checks] and [search_for_attacks] spell
    out the same condition. *)
Definition attacks_along (j dist : Z) (piece_type enemy_color : ascii) : bool :=
  (((0 <=? j) && (j <=? 3)) && Ascii.eqb piece_type "R")
  || (((4 <=? j) && (j <=? 7)) && Ascii.eqb piece_type "B")
  || (((dist =? 1) && Ascii.eqb piece_type "P")
      && ((Ascii.eqb enemy_color "w" && ((6 <=? j) && (j <=? 7)))
          || (Ascii.eqb enemy_color "b" && ((4 <=? j) && (j <=? 5)))))
  || Ascii.eqb piece_type "Q"
  || ((dist =? 1) && Ascii.eqb piece_type "K").

(** The local variables of [search_for_pins_and_checks]. *)
Record Scan : Type := mkScan {
  scan_in_check : bool;
  scan_pins : list Ray;
  scan_checks : list Ray
}.

(** [GameState.search_for_pins_and_checks] *)
Definition search_for_pins_and_checks : M (bool * list Ray * list Ray) :=
  w <- self white_to_move ;;
  wk <- self white_king_location ;;
  bk <- self black_king_location ;;
  let enemy_color : ascii := (if w then "b" else "w")%char in
  let ally_color : ascii := (if w then "w" else "b")%char in
  let king_r := if w then fst wk else fst bk in
  let king_c := if w then snd wk else snd bk in
  sc <- for_loop (indexed king_dirs)
    (fun jd sc =>
       let j := fst jd in
       let dir_j := snd jd in
       res <- for_loop (Py.range 1 8)
         (fun dist_j_j (st : option Ray * Scan) =>
            let possible_pin := fst st in
            let sc := snd st in
            let test_r := king_r + fst dir_j * dist_j_j in
            let test_c := king_c + snd dir_j * dist_j_j in
            if on_board test_r test_c then
              test_piece <- board_at test_r test_c ;;
              color <- char_at test_piece 0 ;;
              if Ascii.eqb color ally_color then
                match possible_pin with
                | None =>
                    ret (Continue (Some (test_r, test_c, fst dir_j, snd dir_j), sc))
                | Some _ => ret (Break st)
                end
              else if Ascii.eqb color enemy_color then
                piece_type <- char_at test_piece 1 ;;
                if attacks_along j dist_j_j piece_type enemy_color then
                  match possible_pin with
                  | None =>
                      ret (Break (possible_pin,
                                  mkScan true (scan_pins sc)
                                    (scan_checks sc ++ [(test_r, test_c, fst dir_j, snd dir_j)])))
                  | Some pin =>
                      ret (Break (possible_pin,
                                  mkScan (scan_in_check sc) (scan_pins sc ++ [pin])
                                    (scan_checks sc)))
                  end
                else ret (Break st)
              else ret (Continue st)
            else ret (Break st))
         (None, sc) ;;
       ret (Continue (snd res)))
    (mkScan false [] []) ;;
  sc <- for_loop knight_dirs
    (fun dir_j sc =>
       let end_r := king_r + fst dir_j in
       let end_c := king_c + snd dir_j in
       if on_board end_r end_c then
         end_piece <- board_at end_r end_c ;;
         color <- char_at end_piece 0 ;;
         if Ascii.eqb color enemy_color then
           kind <- char_at end_piece 1 ;;
           if Ascii.eqb kind "N" then
             ret (Continue (mkScan true (scan_pins sc)
                              (scan_checks sc ++ [(end_r, end_c, fst dir_j, snd dir_j)])))
           else ret (Continue sc)
         else ret (Continue sc)
       else ret (Continue sc))
    sc ;;
  ret (scan_in_check sc, scan_pins sc, scan_checks sc).

(** [0 <= r < len(self.board)] *)
Definition in_rows (b : Board) (r : Z) : bool :=
  (0 <=? r) && (r <? Z.of_nat (List.length b)).

(** [GameState.search_for_attacks].  The loop variable [found] records that
    the method has executed [return True]; every loop stops once it is set. *)
Definition search_for_attacks (r c : Z) (enemy_c : ascii) : M bool :=
  let ally_c : ascii := (if Ascii.eqb enemy_c "b" then "w" else "b")%char in
  b <- self board ;;
  found <- for_loop (indexed king_dirs)
    (fun jd (_ : bool) =>
       let j := fst jd in
       let dir_j := snd jd in
       hit <- for_loop (Py.range 1 (Z.of_nat (List.length b)))
         (fun dist_j (_ : bool) =>
            let end_r := r + fst dir_j * dist_j in
            let end_c := c + snd dir_j * dist_j in
            if in_rows b end_r && in_rows b end_c then
              end_piece <- board_at end_r end_c ;;
              color <- char_at end_piece 0 ;;
              if Ascii.eqb color ally_c then ret (Break false)
              else if Ascii.eqb color enemy_c then
                enemy_piece_type <- char_at end_piece 1 ;;
                if attacks_along j dist_j enemy_piece_type enemy_c
                then ret (Break true)
                else ret (Break false)
              else ret (Continue false)
            else ret (Break false))
         false ;;
       if hit then ret (Break true) else ret (Continue false))
    false ;;
  if found then ret true
  else
    for_loop knight_dirs
      (fun dir_j (_ : bool) =>
         let end_r := r + fst dir_j in
         let end_c := c + snd dir_j in
         if in_rows b end_r then
           row <- orraise IndexError (Py.getitem b end_r) ;;
           if (0 <=? end_c) && (end_c <? Z.of_nat (List.length row)) then
             end_piece <- board_at end_r end_c ;;
             color <- char_at end_piece 0 ;;
             if Ascii.eqb color enemy_c then
               kind <- char_at end_piece 1 ;;
               if Ascii.eqb kind "N" then ret (Break true) else ret (Continue false)
             else ret (Continue false)
           else ret (Continue false)
         else ret (Continue false))
      false.

(** A list comprehension [[f(x) for x in xs]]. *)
Fixpoint comprehension {X Y : Type} (f : X -> M Y) (xs : list X) : M (list Y) :=
  match xs with
  | [] => ret []
  | x :: xs' => y <- f x ;; ys <- comprehension f xs' ;; ret (y :: ys)
  end.

(** ** The material classifier *)

(** [all([j == v for j in l])] *)
Definition all_are (v : string) (l : list string) : bool :=
  forallb (fun j => String.eqb j v) l.

(** The local variables of the bishop scan. *)
Record Parity : Type := mkParity {
  parity_1st_bishop : Z;
  first_bishop_found : bool;
  parity_2nd_bishop : Z
}.

(** The first loop of [search_for_material_stalemate]: the tokens of the
    grid that are neither kings nor empty, in scanning order. *)
Definition active_scan : M (list string) :=
  for_loop (Py.range 0 8)
    (fun r active =>
       active <- for_loop (Py.range 0 8)
         (fun c active =>
            p <- board_at r c ;;
            kind <- char_at p 1 ;;
            if negb (Ascii.eqb kind "K" || String.eqb p "--")
            then ret (Continue (active ++ [p]))
            else ret (Continue active))
         active ;;
       ret (Continue active))
    [].

(** The loop of its two-bishop case: [r + c] of the first bishop met and of
    the last one met after it. *)
Definition parity_scan : M Parity :=
  for_loop (Py.range 0 8)
    (fun r par =>
       par <- for_loop (Py.range 0 8)
         (fun c par =>
            p <- board_at r c ;;
            kind <- char_at p 1 ;;
            if Ascii.eqb kind "B" then
              if negb (first_bishop_found par)
              then ret (Continue (mkParity (r + c) true (parity_2nd_bishop par)))
              else ret (Continue (mkParity (parity_1st_bishop par)
                                    (first_bishop_found par) (r + c)))
            else ret (Continue par))
         par ;;
       ret (Continue par))
    (mkParity 0 false 0).

(** [GameState.search_for_material_stalemate] *)
Definition search_for_material_stalemate : M bool :=
  active_pieces <- active_scan ;;
  let n := Z.of_nat (List.length active_pieces) in
  if n =? 0 then ret true
  else if n =? 1 then
    active_piece <- orraise IndexError (Py.getitem active_pieces 0) ;;
    kind <- char_at active_piece 1 ;;
    ret (Ascii.eqb kind "N" || Ascii.eqb kind "B")
  else if n =? 2 then
    if all_are "bB" active_pieces || all_are "wB" active_pieces then
      par <- parity_scan ;;
      ret ((parity_1st_bishop par + parity_2nd_bishop par) mod 2 =? 0)
    else
      kinds <- comprehension (fun j => char_at j 1) active_pieces ;;
      colors <- comprehension (fun j => char_at j 0) active_pieces ;;
      if forallb (fun k => Ascii.eqb k "B") kinds
         && (existsb (fun k => Ascii.eqb k "w") colors
             && existsb (fun k => Ascii.eqb k "b") colors)
      then ret true
      else if all_are "wN" active_pieces || all_are "bN" active_pieces
      then ret true
      else ret false
  else ret false.

(** ** Pseudo-legal generators *)

(** The loop that opens the pawn, knight, bishop, rook and queen generators:
    look for [(r, c)] in [self.pins] from the last entry to the first and,
    when found, record the pin direction, remove the entry and stop. *)
Definition find_pin (r c : Z) : M (bool * option Square) :=
  ps <- self pins ;;
  for_loop (Py.range_down (Z.of_nat (List.length ps) - 1))
    (fun j st =>
       ps <- self pins ;;
       p <- orraise IndexError (Py.getitem ps j) ;;
       match p with
       | (pr, pc, dr, dc) =>
           if (pr =? r) && (pc =? c) then
             ps' <- orraise ValueError (Py.remove ray_eqb p ps) ;;
             assign (with_pins ps') ;;;
             ret (Break (true, Some (dr, dc)))
           else ret (Continue st)
       end)
    (false, None).

(** One of the two capture blocks of [get_pawn_moves], towards column
    [c + dc] with [dc] = -1 (left) or 1 (right). *)
Definition pawn_capture (r c move_amount promo_r dc : Z) (enemy_c : ascii)
    (piece_pinned : bool) (pin_direction : option Square)
    (st : list Move * bool) : M (list Move * bool) :=
  if negb piece_pinned || dir_is pin_direction (move_amount, dc) then
    target <- board_at (r + move_amount) (c + dc) ;;
    color <- char_at target 0 ;;
    st <- (if Ascii.eqb color enemy_c then
             let pawn_promotion := if r + move_amount =? promo_r then true else snd st in
             m <- new_Move (r, c) (r + move_amount, c + dc) pawn_promotion false false ;;
             ret (fst st ++ [m], pawn_promotion)
           else ret st) ;;
    ep <- self en_passant_possible ;;
    if dir_is ep (r + move_amount, c + dc) then
      m <- new_Move (r, c) (r + move_amount, c + dc) false true false ;;
      ret (fst st ++ [m], snd st)
    else ret st
  else ret st.

(** [GameState.get_pawn_moves] *)
Definition get_pawn_moves (r c : Z) (moves : list Move) : M (list Move) :=
  pin <- find_pin r c ;;
  let piece_pinned := fst pin in
  let pin_direction := snd pin in
  w <- self white_to_move ;;
  let move_amount := if w then -1 else 1 in
  let start_row := if w then 6 else 1 in
  let promo_r := if w then 0 else 7 in
  let enemy_c : ascii := (if w then "b" else "w")%char in
  ahead <- board_at (r + move_amount) c ;;
  st <- (if String.eqb ahead "--" then
           if negb piece_pinned || dir_is pin_direction (move_amount, 0) then
             let pawn_promotion := if r + move_amount =? promo_r then true else false in
             m <- new_Move (r, c) (r + move_amount, c) pawn_promotion false false ;;
             let moves := moves ++ [m] in
             if r =? start_row then
               ahead2 <- board_at (r + 2 * move_amount) c ;;
               if String.eqb ahead2 "--" then
                 m2 <- new_Move (r, c) (r + 2 * move_amount, c) false false false ;;
                 ret (moves ++ [m2], pawn_promotion)
               else ret (moves, pawn_promotion)
             else ret (moves, pawn_promotion)
           else ret (moves, false)
         else ret (moves, false)) ;;
  st <- (if c - 1 >=? 0
         then pawn_capture r c move_amount promo_r (-1) enemy_c piece_pinned pin_direction st
         else ret st) ;;
  b <- self board ;;
  st <- (if c + 1 <=? Z.of_nat (List.length b) - 1
         then pawn_capture r c move_amount promo_r 1 enemy_c piece_pinned pin_direction st
         else ret st) ;;
  ret (fst st).

(** [GameState.get_knight_moves] *)
Definition get_knight_moves (r c : Z) (moves : list Move) : M (list Move) :=
  pin <- find_pin r c ;;
  let piece_pinned := fst pin in
  w <- self white_to_move ;;
  let ally_c : ascii := (if w then "w" else "b")%char in
  for_loop knight_dirs
    (fun dir_j moves =>
       let end_r := r + fst dir_j in
       let end_c := c + snd dir_j in
       if on_board end_r end_c then
         if negb piece_pinned then
           end_piece <- board_at end_r end_c ;;
           color <- char_at end_piece 0 ;;
           if negb (Ascii.eqb color ally_c) then
             m <- new_Move (r, c) (end_r, end_c) false false false ;;
             ret (Continue (moves ++ [m]))
           else ret (Continue moves)
         else ret (Continue moves)
       else ret (Continue moves))
    moves.

(** The body shared, word for word, by [get_bishop_moves], [get_rook_moves]
    and [get_queen_moves]; they differ in the list of directions only. *)
Definition get_sliding_moves (dirs : list Square) (r c : Z) (moves : list Move)
  : M (list Move) :=
  pin <- find_pin r c ;;
  let piece_pinned := fst pin in
  let pin_direction := snd pin in
  w <- self white_to_move ;;
  let enemy_c : ascii := (if w then "b" else "w")%char in
  for_loop dirs
    (fun dir_j moves =>
       moves <- for_loop (Py.range 1 8)
         (fun dist_j_j moves =>
            let end_r := r + fst dir_j * dist_j_j in
            let end_c := c + snd dir_j * dist_j_j in
            if on_board end_r end_c then
              if negb piece_pinned || dir_is pin_direction dir_j
                 || dir_is pin_direction (- fst dir_j, - snd dir_j) then
                end_piece <- board_at end_r end_c ;;
                if String.eqb end_piece "--" then
                  m <- new_Move (r, c) (end_r, end_c) false false false ;;
                  ret (Continue (moves ++ [m]))
                else
                  color <- char_at end_piece 0 ;;
                  if Ascii.eqb color enemy_c then
                    m <- new_Move (r, c) (end_r, end_c) false false false ;;
                    ret (Break (moves ++ [m]))
                  else ret (Break moves)
              else ret (Continue moves)
            else ret (Break moves))
         moves ;;
       ret (Continue moves))
    moves.

Definition get_bishop_moves := get_sliding_moves bishop_dirs.
Definition get_rook_moves := get_sliding_moves rook_dirs.
Definition get_queen_moves := get_sliding_moves king_dirs.

(** ** The castling generator *)

(** [GameState.get_king_side_castling_moves] *)
Definition get_king_side_castling_moves (r c : Z) (moves : list Move) : M (list Move) :=
  w <- self white_to_move ;;
  let ec : ascii := (if w then "b" else "w")%char in
  p1 <- board_at r (c + 1) ;;
  empty <- (if String.eqb p1 "--"
            then p2 <- board_at r (c + 2) ;; ret (String.eqb p2 "--")
            else ret false) ;;
  if empty then
    a1 <- search_for_attacks r (c + 1) ec ;;
    both <- (if a1 then search_for_attacks r (c + 2) ec else ret false) ;;
    if negb both then
      m <- new_Move (r, c) (r, c + 2) false false true ;;
      ret (moves ++ [m])
    else ret moves
  else ret moves.

(** [GameState.get_queen_side_castling_moves] *)
Definition get_queen_side_castling_moves (r c : Z) (moves : list Move) : M (list Move) :=
  w <- self white_to_move ;;
  let ec : ascii := (if w then "b" else "w")%char in
  p1 <- board_at r (c - 1) ;;
  empty <- (if String.eqb p1 "--" then
              p2 <- board_at r (c - 2) ;;
              if String.eqb p2 "--"
              then p3 <- board_at r (c - 3) ;; ret (String.eqb p3 "--")
              else ret false
            else ret false) ;;
  if empty then
    a1 <- search_for_attacks r (c - 1) ec ;;
    both <- (if a1 then search_for_attacks r (c - 2) ec else ret false) ;;
    if negb both then
      m <- new_Move (r, c) (r, c - 2) false false true ;;
      ret (moves ++ [m])
    else ret moves
  else ret moves.

(** [GameState.get_castling_moves] *)
Definition get_castling_moves (r c : Z) (moves : list Move) : M (list Move) :=
  w <- self white_to_move ;;
  let ec : ascii := (if w then "b" else "w")%char in
  attacked <- (if w then
                 k <- self white_king_location ;; search_for_attacks (fst k) (snd k) ec
               else
                 k <- self black_king_location ;; search_for_attacks (fst k) (snd k) ec) ;;
  if attacked then ret moves
  else
    w <- self white_to_move ;;
    rights <- self current_castling_rights ;;
    moves <- (if (w && wks rights) || (negb w && bks rights)
              then get_king_side_castling_moves r c moves
              else ret moves) ;;
    w <- self white_to_move ;;
    rights <- self current_castling_rights ;;
    if (w && wqs rights) || (negb w && bqs rights)
    then get_queen_side_castling_moves r c moves
    else ret moves.

(** [GameState.get_king_moves] *)
Definition get_king_moves (r c : Z) (moves : list Move) : M (list Move) :=
  w <- self white_to_move ;;
  let ally_c : ascii := (if w then "w" else "b")%char in
  moves <- for_loop king_dirs
    (fun dir_j moves =>
       let end_r := r + fst dir_j in
       let end_c := c + snd dir_j in
       if on_board end_r end_c then
         end_piece <- board_at end_r end_c ;;
         color <- char_at end_piece 0 ;;
         if negb (Ascii.eqb color ally_c) then
           (if Ascii.eqb ally_c "w"
            then assign (with_white_king_location (end_r, end_c))
            else assign (with_black_king_location (end_r, end_c))) ;;;
           probe <- search_for_pins_and_checks ;;
           let current_player_is_in_check := fst (fst probe) in
           moves <- (if negb current_player_is_in_check then
                       m <- new_Move (r, c) (end_r, end_c) false false false ;;
                       ret (moves ++ [m])
                     else ret moves) ;;
           (if Ascii.eqb ally_c "w"
            then assign (with_white_king_location (r, c))
            else assign (with_black_king_location (r, c))) ;;;
           ret (Continue moves)
         else ret (Continue moves)
       else ret (Continue moves))
    moves ;;
  get_castling_moves r c moves.

(** ** The legal-move filter *)

(** [self.move_functions[piece_type]]; [None] is the [KeyError]. *)
Definition move_functions (piece_type : ascii)
  : option (Z -> Z -> list Move -> M (list Move)) :=
  if Ascii.eqb piece_type "P" then Some get_pawn_moves
  else if Ascii.eqb piece_type "N" then Some get_knight_moves
  else if Ascii.eqb piece_type "B" then Some get_bishop_moves
  else if Ascii.eqb piece_type "R" then Some get_rook_moves
  else if Ascii.eqb piece_type "Q" then Some get_queen_moves
  else if Ascii.eqb piece_type "K" then Some get_king_moves
  else None.

(** [GameState.get_all_possible_moves] *)
Definition get_all_possible_moves : M (list Move) :=
  b <- self board ;;
  for_loop (Py.range 0 (Z.of_nat (List.length b)))
    (fun r moves =>
       b <- self board ;;
       row <- orraise IndexError (Py.getitem b r) ;;
       moves <- for_loop (Py.range 0 (Z.of_nat (List.length row)))
         (fun c moves =>
            p <- board_at r c ;;
            piece_color <- char_at p 0 ;;
            w <- self white_to_move ;;
            if (w && Ascii.eqb piece_color "w") || (negb w && Ascii.eqb piece_color "b") then
              p <- board_at r c ;;
              piece_type <- char_at p 1 ;;
              gen <- orraise KeyError (move_functions piece_type) ;;
              moves <- gen r c moves ;;
              ret (Continue moves)
            else ret (Continue moves))
         moves ;;
       ret (Continue moves))
    [].

Definition newline : string := String (ascii_of_nat 10) EmptyString.

(** The branch of [get_all_valid_moves] for a single check: all
    pseudo-legal moves, without those of pieces other than the king that do
    not end on a square between the king and the checking piece. *)
Definition single_check_moves (king_r king_c : Z) : M (list Move) :=
  moves <- get_all_possible_moves ;;
  cs <- self checks ;;
  check_info <- orraise IndexError (Py.getitem cs 0) ;;
  match check_info with
  | (check_r, check_c, check_d0, check_d1) =>
      enemy_piece_applying_check <- board_at check_r check_c ;;
      kind <- char_at enemy_piece_applying_check 1 ;;
      valid_squares <-
        (if Ascii.eqb kind "N" then ret [(check_r, check_c)]
         else
           for_loop (Py.range 1 8)
             (fun dist_j_j valid_squares =>
                let valid_square :=
                  (king_r + dist_j_j * check_d0, king_c + dist_j_j * check_d1) in
                let valid_squares := valid_squares ++ [valid_square] in
                if (fst valid_square =? check_r) && (snd valid_square =? check_c)
                then ret (Break valid_squares)
                else ret (Continue valid_squares))
             []) ;;
      for_loop (Py.range_down (Z.of_nat (List.length moves) - 1))
        (fun j moves =>
           m <- orraise IndexError (Py.getitem moves j) ;;
           kind <- char_at (piece_moved m) 1 ;;
           if negb (Ascii.eqb kind "K") then
             if negb (Py.contains square_eqb (end_r m, end_c m) valid_squares) then
               moves <- orraise ValueError (Py.remove Move_eq m moves) ;;
               ret (Continue moves)
             else ret (Continue moves)
           else ret (Continue moves))
        moves
  end.

(** The first half of [get_all_valid_moves]: the moves before the terminal
    flags are looked at. *)
Definition assemble_moves (king_r king_c : Z) : M (list Move) :=
  in_check <- self current_player_is_in_check ;;
  if in_check then
    cs <- self checks ;;
    if Z.of_nat (List.length cs) =? 1
    then single_check_moves king_r king_c
    else get_king_moves king_r king_c []
  else get_all_possible_moves.

(** [GameState.get_all_valid_moves] *)
Definition get_all_valid_moves : M (list Move) :=
  scan <- search_for_pins_and_checks ;;
  assign (with_check_data (fst (fst scan)) (snd (fst scan)) (snd scan)) ;;;
  w <- self white_to_move ;;
  wk <- self white_king_location ;;
  bk <- self black_king_location ;;
  let king_r := if w then fst wk else fst bk in
  let king_c := if w then snd wk else snd bk in
  moves <- assemble_moves king_r king_c ;;
  (if Z.of_nat (List.length moves) =? 0 then
     in_check <- self current_player_is_in_check ;;
     if in_check then
       assign (with_checkmate true) ;;;
       w <- self white_to_move ;;
       if w then print (newline ++ "0 - 1")%string else print (newline ++ "1 - 0")%string
     else
       assign (with_stalemate true) ;;;
       print (newline ++ "1/2 - 1/2")%string
   else
     assign (with_checkmate false) ;;;
     assign (with_stalemate false)) ;;;
  draw <- search_for_material_stalemate ;;
  assign (with_stalemate draw) ;;;
  draw <- self stalemate ;;
  if draw then
    print (newline ++ "1/2 - 1/2")%string ;;;
    ret []
  else ret moves.

(** ** The driver's move request (ChessMain.main)

    On the second click the driver builds [Move(player_clicks[0],
    player_clicks[1], gs.board)], runs through [valid_moves] and calls
    [gs.make_move(vmj)] for every [vmj] equal to it; the legal moves are
    recomputed after a move was made.  Drawing, the PGN echo and the event
    loop are left out.  [request] returns whether a move was made. *)
Definition request (clicks : Square * Square) : M bool :=
  valid_moves <- get_all_valid_moves ;;
  move <- new_Move (fst clicks) (snd clicks) false false false ;;
  for_loop valid_moves
    (fun vmj move_made =>
       if Move_eq move vmj then
         make_move vmj ;;;
         ret (Continue true)
       else ret (Continue move_made))
    false.

(** A game: every request of the list is made in turn and accepted. *)
Fixpoint play (game : list (Square * Square)) : M unit :=
  match game with
  | [] => ret tt
  | clicks :: rest =>
      move_made <- request clicks ;;
      if move_made then play rest else raise ValueError
  end.

(** [played game P]: [P] is the position after [game] was played from the
    initial position, the promotion prompt answered with an empty line. *)
Definition played (game : list (Square * Square)) (P : GameState) : Prop :=
  answer EmptyString (play game new_game) = Some (tt, P).

Definition squares_of (m : Move) : Square * Square :=
  ((start_r m, start_c m), (end_r m, end_c m)).

(** The number of legal replies after [m] is made in [s]. *)
Definition replies (s : GameState) (m : Move) : option nat :=
  match make_move m s with
  | Ret (_, s1) =>
      match get_all_valid_moves s1 with
      | Ret (ms, _) => Some (List.length ms)
      | _ => None
      end
  | _ => None
  end.

Fixpoint total (l : list (option nat)) : option nat :=
  match l with
  | [] => Some 0%nat
  | Some n :: t => option_map (Nat.add n) (total t)
  | None :: _ => None
  end.

(** *** Games used as test positions *)

(** 1. e4 *)
Definition game_e4 : list (Square * Square) := [((6, 4), (4, 4))].

(** 1. f3 e5 2. Kf2 Qh4+ *)
Definition game_check_on_diagonal : list (Square * Square) :=
  [((6, 5), (5, 5)); ((1, 4), (3, 4)); ((7, 4), (6, 5)); ((0, 3), (4, 7))].

(** 1. g3 b6 2. Bg2 Ba6 3. Nf3 e6 4. e4 h6 *)
Definition game_bishop_eyes_f1 : list (Square * Square) :=
  [((6, 6), (5, 6)); ((1, 1), (2, 1)); ((7, 5), (6, 6)); ((0, 2), (2, 0));
   ((7, 6), (5, 5)); ((1, 4), (2, 4)); ((6, 4), (4, 4)); ((1, 7), (2, 7))].

(** 1. e3 a5 2. Qh5 Ra6 3. Qxa5 h5 4. h4 Rah6 5. Qxc7 f6 6. Qxd7+ Kf7
    7. Qxb7 Qd3 8. Qxb8 Qh7 9. Qxc8 Kg6 10. Qe6, after which Black has no
    legal move and is not in check. *)
Definition game_ten_move_stalemate : list (Square * Square) :=
  [((6, 4), (5, 4)); ((1, 0), (3, 0)); ((7, 3), (3, 7)); ((0, 0), (2, 0));
   ((3, 7), (3, 0)); ((1, 7), (3, 7)); ((6, 7), (4, 7)); ((2, 0), (2, 7));
   ((3, 0), (1, 2)); ((1, 5), (2, 5)); ((1, 2), (1, 3)); ((0, 4), (1, 5));
   ((1, 3), (1, 1)); ((0, 3), (5, 3)); ((1, 1), (0, 1)); ((5, 3), (1, 7));
   ((0, 1), (0, 2)); ((1, 5), (2, 6)); ((0, 2), (2, 4))].

(** 1. h4 g5 2. hxg5 h6 3. gxh6 a6 4. h7 a5, after which hxg8 promotes. *)
Definition game_before_promotion : list (Square * Square) :=
  [((6, 7), (4, 7)); ((1, 6), (3, 6)); ((4, 7), (3, 6)); ((1, 7), (2, 7));
   ((3, 6), (2, 7)); ((1, 0), (2, 0)); ((2, 7), (1, 7)); ((2, 0), (3, 0))].

(** A position with the given grid, side to move and king squares, no
    castling rights and empty history. *)
Definition position (b : Board) (w : bool) (wk bk : Square) : GameState := {|
  board := b;
  white_to_move := w;
  move_log := [];
  white_king_location := wk;
  black_king_location := bk;
  current_player_is_in_check := false;
  checks := [];
  pins := [];
  checkmate := false;
  stalemate := false;
  en_passant_possible := None;
  current_castling_rights := mkCastlingRights false false false false;
  castling_rights_log := [mkCastlingRights false false false false]
|}.

(** King and pawn against king, Black to move: Kb8 against Kb6 and b7. *)
Definition king_and_pawn_stalemate : GameState :=
  position
    [ ["--"; "bK"; "--"; "--"; "--"; "--"; "--"; "--"];
      ["--"; "wP"; "--"; "--"; "--"; "--"; "--"; "--"];
      ["--"; "wK"; "--"; "--"; "--"; "--"; "--"; "--"];
      ["--"; "--"; "--"; "--"; "--"; "--"; "--"; "--"];
      ["--"; "--"; "--"; "--"; "--"; "--"; "--"; "--"];
      ["--"; "--"; "--"; "--"; "--"; "--"; "--"; "--"];
      ["--"; "--"; "--"; "--"; "--"; "--"; "--"; "--"];
      ["--"; "--"; "--"; "--"; "--"; "--"; "--"; "--"] ]
    false (2, 1) (0, 1).

(** ** Vocabulary of the specifications *)

(** The loop variables a loop body hands back. *)
Definition ctl_state {S : Type} (c : Ctl S) : S :=
  match c with
  | Continue st => st
  | Break st => st
  end.

(** [returns m s Q]: run on state [s], the method [m] returns normally,
    without printing and without reading input, and its result and final
    state satisfy [Q]. *)
Definition returns {A : Type} (m : M A) (s : GameState)
    (Q : A -> GameState -> Prop) : Prop :=
  exists a s', m s = Ret (a, s') /\ Q a s'.

(** [asks m s prompt Q]: run on state [s], the method [m] stops at a call
    of [input prompt]; whatever line is entered, it then returns normally
    and the line, the result and the final state satisfy [Q]. *)
Definition asks {A : Type} (m : M A) (s : GameState) (prompt : string)
    (Q : string -> A -> GameState -> Prop) : Prop :=
  exists k, m s = Input prompt k
            /\ forall reply, exists a s', k reply = Ret (a, s') /\ Q reply a s'.

(** A grid of 8 rows of 8 piece tokens, each token of two characters or more. *)
Definition wf_row (row : list string) : Prop :=
  List.length row = 8%nat /\ Forall (fun p => (2 <= String.length p)%nat) row.

Definition wf_board (b : Board) : Prop :=
  List.length b = 8%nat /\ Forall wf_row b.

(** [promoted_piece] of [make_move] when [reply], a line of ASCII
    characters, is entered at the prompt. *)
Definition chosen_kind (reply : string) : string :=
  if String.eqb (Py.upper reply) EmptyString then "Q" else Py.upper reply.

(** The kind a line entered at the prompt names: one of the four letters the
    prompt lists, in either case, and the queen for an empty line. *)
Definition kind_named (reply : string) : option string :=
  if String.eqb reply EmptyString then Some "Q"
  else if String.eqb reply "Q" || String.eqb reply "q" then Some "Q"
  else if String.eqb reply "R" || String.eqb reply "r" then Some "R"
  else if String.eqb reply "B" || String.eqb reply "b" then Some "B"
  else if String.eqb reply "N" || String.eqb reply "n" then Some "N"
  else None.

(** *** Material *)

(** The squares of the board in scanning order. *)
Definition all_squares : list Square :=
  flat_map (fun r => map (fun c => (r, c)) (Py.range 0 8)) (Py.range 0 8).

(** The token's second character is [k]. *)
Definition has_kind (k : ascii) (p : string) : bool :=
  match Py.char p 1 with
  | Some x => Ascii.eqb x k
  | None => false
  end.

(** The token's first character is [k]. *)
Definition has_color (k : ascii) (p : string) : bool :=
  match Py.char p 0 with
  | Some x => Ascii.eqb x k
  | None => false
  end.

Definition is_material (p : string) : bool :=
  negb (has_kind "K" p || String.eqb p "--").

Definition piece_on (b : Board) (sq : Square) : list (Square * string) :=
  match cell b (fst sq) (snd sq) with
  | Some p => [(sq, p)]
  | None => []
  end.

(** The non-king pieces of a grid with their squares, in scanning order. *)
Definition material (b : Board) : list (Square * string) :=
  filter (fun x => is_material (snd x)) (flat_map (piece_on b) all_squares).

(** Two squares of the same colour: [row + column] of equal parity. *)
Definition same_shade (a b : Square) : bool :=
  (fst a + snd a) mod 2 =? (fst b + snd b) mod 2.

(** The draw condition as the specification words it: no material; a single
    knight or bishop; two bishops of one team on squares of one colour; any
    number of bishops, of both teams, and nothing else; knights only, all of
    one team. *)
Definition claimed_draw (mat : list (Square * string)) : bool :=
  let tokens := map snd mat in
  match mat with
  | [] => true
  | [(_, p)] => has_kind "N" p || has_kind "B" p
  | [(a, p); (b, q)] =>
      (has_kind "B" p && has_kind "B" q)
      && ((has_color "w" p && has_color "w" q) || (has_color "b" p && has_color "b" q))
      && same_shade a b
  | _ => false
  end
  || (forallb (has_kind "B") tokens
      && existsb (has_color "w") tokens && existsb (has_color "b") tokens)
  || (forallb (has_kind "N") tokens
      && (forallb (has_color "w") tokens || forallb (has_color "b") tokens)).

(** The draw condition of the classifier: as above, but the last two cases
    only for exactly two pieces. *)
Definition classified_draw (mat : list (Square * string)) : bool :=
  match mat with
  | [] => true
  | [(_, p)] => has_kind "N" p || has_kind "B" p
  | [(a, p); (b, q)] =>
      if (String.eqb p "bB" && String.eqb q "bB")
         || (String.eqb p "wB" && String.eqb q "wB")
      then same_shade a b
      else
        ((has_kind "B" p && has_kind "B" q)
         && ((has_color "w" p || has_color "w" q)
             && (has_color "b" p || has_color "b" q)))
        || (String.eqb p "wN" && String.eqb q "wN")
        || (String.eqb p "bN" && String.eqb q "bN")
  | _ => false
  end.

(** The step of the first scan on one square. *)
Definition active_step (b : Board) (acc : list string) (sq : Square) : list string :=
  match cell b (fst sq) (snd sq) with
  | Some p => if is_material p then acc ++ [p] else acc
  | None => acc
  end.

(** The step of the bishop scan on one piece. *)
Definition parity_step (par : Parity) (x : Square * string) : Parity :=
  if has_kind "B" (snd x) then
    if negb (first_bishop_found par)
    then mkParity (fst (fst x) + snd (fst x)) true (parity_2nd_bishop par)
    else mkParity (parity_1st_bishop par) (first_bishop_found par)
           (fst (fst x) + snd (fst x))
  else par.

(** Kings and three bishops: white bishops on c1 and f1, a black one on c8. *)
Definition three_bishops : GameState :=
  position
    [ ["--"; "--"; "bB"; "--"; "bK"; "--"; "--"; "--"];
      ["--"; "--"; "--"; "--"; "--"; "--"; "--"; "--"];
      ["--"; "--"; "--"; "--"; "--"; "--"; "--"; "--"];
      ["--"; "--"; "--"; "--"; "--"; "--"; "--"; "--"];
      ["--"; "--"; "--"; "--"; "--"; "--"; "--"; "--"];
      ["--"; "--"; "--"; "--"; "--"; "--"; "--"; "--"];
      ["--"; "--"; "--"; "--"; "--"; "--"; "--"; "--"];
      ["--"; "--"; "wB"; "--"; "wK"; "wB"; "--"; "--"] ]
    true (7, 4) (0, 4).

(** King and bishop against king, White to move. *)
Definition bishop_and_kings : GameState :=
  position
    [ ["--"; "--"; "--"; "--"; "bK"; "--"; "--"; "--"];
      ["--"; "--"; "--"; "--"; "--"; "--"; "--"; "--"];
      ["--"; "--"; "--"; "--"; "--"; "--"; "--"; "--"];
      ["--"; "--"; "--"; "--"; "--"; "--"; "--"; "--"];
      ["--"; "--"; "--"; "--"; "--"; "--"; "--"; "--"];
      ["--"; "--"; "--"; "--"; "--"; "--"; "--"; "--"];
      ["--"; "--"; "--"; "--"; "--"; "--"; "--"; "--"];
      ["--"; "--"; "--"; "--"; "wK"; "wB"; "--"; "--"] ]
    true (7, 4) (0, 4).

(** A white pawn on a7 about to promote. *)
Definition pawn_on_a7 : GameState :=
  position
    [ ["--"; "--"; "--"; "--"; "--"; "--"; "--"; "bK"];
      ["wP"; "--"; "--"; "--"; "--"; "--"; "--"; "--"];
      ["--"; "--"; "wK"; "--"; "--"; "--"; "--"; "--"];
      ["--"; "--"; "--"; "--"; "--"; "--"; "--"; "--"];
      ["--"; "--"; "--"; "--"; "--"; "--"; "--"; "--"];
      ["--"; "--"; "--"; "--"; "--"; "--"; "--"; "--"];
      ["--"; "--"; "--"; "--"; "--"; "--"; "--"; "--"];
      ["--"; "--"; "--"; "--"; "--"; "--"; "--"; "--"] ]
    true (2, 2) (0, 7).

(** a7-a8, flagged as a promotion, as [get_pawn_moves] builds it. *)
Definition pawn_to_a8 : Move := mkMove 1 0 0 0 "wP" "--" true false false 1000.

(** *** The legal-move filter on drawn material *)

(** The fields the move generators leave alone. *)
Definition same_position (s0 s : GameState) : Prop :=
  board s = board s0
  /\ white_to_move s = white_to_move s0
  /\ current_castling_rights s = current_castling_rights s0
  /\ checks s = checks s0
  /\ current_player_is_in_check s = current_player_is_in_check s0.

(** Every move of the list records a piece token of two characters or more. *)
Definition moves_ok (ms : list Move) : Prop :=
  Forall (fun m => (2 <= String.length (piece_moved m))%nat) ms.

(** A recorded check or pin lies on the board. *)
Definition ray_on_board (x : Ray) : Prop :=
  match x with
  | (r, c, _, _) => on_board r c = true
  end.

Definition no_rights : CastlingRights := mkCastlingRights false false false false.

(** A castling right is held only while the rook stands on its corner. *)
Definition rooks_hold_rights (s : GameState) : Prop :=
  (wks (current_castling_rights s) = true -> cell (board s) 7 7 = Some "wR")
  /\ (wqs (current_castling_rights s) = true -> cell (board s) 7 0 = Some "wR")
  /\ (bks (current_castling_rights s) = true -> cell (board s) 0 7 = Some "bR")
  /\ (bqs (current_castling_rights s) = true -> cell (board s) 0 0 = Some "bR").

(** A position the engine can work on: a well-formed grid, king caches on
    the board, castling rights backed by rooks. *)
Definition wf_state (s : GameState) : Prop :=
  wf_board (board s)
  /\ on_board (fst (white_king_location s)) (snd (white_king_location s)) = true
  /\ on_board (fst (black_king_location s)) (snd (black_king_location s)) = true
  /\ rooks_hold_rights s.

(** [finishes m s Q]: run on [s], the method [m] returns normally, possibly
    after printing, and its result and final state satisfy [Q]. *)
Definition finishes {A : Type} (m : M A) (s : GameState)
    (Q : A -> GameState -> Prop) : Prop :=
  exists a s', yields (m s) (a, s') /\ Q a s'.

(** *** Whenever a method ends *)

(** [post reply m s Q]: whenever the method [m], run on [s] with the prompt
    answered [reply], returns (it may print on the way), its result and final
    state satisfy [Q].  Nothing is said of the runs that raise. *)
Definition post {A : Type} (reply : string) (m : M A) (s : GameState)
    (Q : A -> GameState -> Prop) : Prop :=
  forall a s', answer reply (m s) = Some (a, s') -> Q a s'.

(** The position proper: the fields a query must not touch. *)
Definition same_game (s0 s : GameState) : Prop :=
  board s = board s0
  /\ white_to_move s = white_to_move s0
  /\ move_log s = move_log s0
  /\ en_passant_possible s = en_passant_possible s0
  /\ current_castling_rights s = current_castling_rights s0
  /\ castling_rights_log s = castling_rights_log s0.

(** [keeps m]: however the prompt is answered, [m] ends in the position it
    started from. *)
Definition keeps {A : Type} (m : M A) : Prop :=
  forall reply s0 s, same_game s0 s -> post reply m s (fun _ s' => same_game s0 s').

(** *** The mutator's bookkeeping *)

(** No right of [a] that [b] does not have. *)
Definition rights_le (a b : CastlingRights) : Prop :=
  (wks a = true -> wks b = true)
  /\ (bks a = true -> bks b = true)
  /\ (wqs a = true -> wqs b = true)
  /\ (bqs a = true -> bqs b = true).

(** The two logs run in step: the rights log is one entry longer than the
    move log and ends with the current rights. *)
Definition logs_aligned (s : GameState) : Prop :=
  List.length (castling_rights_log s) = S (List.length (move_log s))
  /\ Py.getitem (castling_rights_log s) (-1) = Some (current_castling_rights s).

(** A pawn token moving two rows. *)
Definition two_rows (m : Move) : bool :=
  has_kind "P" (piece_moved m) && (Z.abs (start_r m - end_r m) =? 2).

(** e2-e4 as built on the initial grid. *)
Definition pawn_e2_e4 : Move := mkMove 6 4 4 4 "wP" "--" false false false 6444.

(** The state after [make_move] of e2-e4 on the initial state. *)
Definition after_e2_e4 : GameState :=
  Eval vm_compute in
    match answer EmptyString (make_move pawn_e2_e4 new_game) with
    | Some (_, s) => s
    | None => new_game
    end.

(** Ng1-f3 as built on the initial grid. *)
Definition knight_g1_f3 : Move := mkMove 7 6 5 5 "wN" "--" false false false 7655.

(** 1. e4 a5 2. Nf3 Ra6: the rook has left a8, so Black's queen-side right
    is gone and the other three remain. *)
Definition game_rook_lift : list (Square * Square) :=
  [((6, 4), (4, 4)); ((1, 0), (3, 0)); ((7, 6), (5, 5)); ((0, 0), (2, 0))].

(** The state after [game_rook_lift] was played from the initial position. *)
Definition after_rook_lift : GameState :=
  Eval vm_compute in
    match answer EmptyString (play game_rook_lift new_game) with
    | Some (_, s) => s
    | None => new_game
    end.

(** Ke1-e2 as built on the grid of [after_rook_lift]. *)
Definition king_e1_e2 : Move := mkMove 7 4 6 4 "wK" "--" false false false 7464.

(** * Verification *)

(** ** Evaluation of the engine on played games *)

(** C7. From the initial position [get_all_valid_moves] returns exactly 20
    moves, and the reply lists after each of them hold 400 moves in all. *)
Theorem perft_two_plies :
  exists ms s,
    get_all_valid_moves new_game = Ret (ms, s)
    /\ List.length ms = 20%nat
    /\ total (map (replies s) ms) = Some 400%nat.
Proof.
  eexists. eexists.
  split; [vm_compute; reflexivity|].
  split; vm_compute; reflexivity.
Qed.

(** C1. After 1. e4 the en-passant target is (5, 4).  The legal reply
    Ng8-f6, made and undone, restores grid, side to move, king caches and
    castling rights but leaves the en-passant target empty. *)
Theorem undo_loses_en_passant_target :
  exists P ms P1 M P2 P3,
    played game_e4 P
    /\ get_all_valid_moves P = Ret (ms, P1)
    /\ In M ms
    /\ squares_of M = ((0, 6), (2, 5))
    /\ make_move M P1 = Ret (tt, P2)
    /\ undo_move P2 = Ret (tt, P3)
    /\ board P3 = board P1
    /\ white_to_move P3 = white_to_move P1
    /\ white_king_location P3 = white_king_location P1
    /\ black_king_location P3 = black_king_location P1
    /\ current_castling_rights P3 = current_castling_rights P1
    /\ en_passant_possible P = Some (5, 4)
    /\ en_passant_possible P1 = Some (5, 4)
    /\ en_passant_possible P3 = None.
Proof.
  eexists. eexists. eexists. eexists. eexists. eexists.
  split; [vm_compute; reflexivity|].
  split; [vm_compute; reflexivity|].
  split; [do 2 right; left; reflexivity|].
  split; [reflexivity|].
  split; [vm_compute; reflexivity|].
  split; [vm_compute; reflexivity|].
  repeat split.
Qed.

(** C6. After 1. f3 e5 2. Kf2 Qh4+ the white king on f2 is checked along
    the diagonal h4-e1.  [get_all_valid_moves] offers Kf2-e1, a retreat along
    that diagonal; once it is made the king on e1 is attacked by the queen,
    as the engine's own [search_for_attacks] reports. *)
Theorem king_retreat_stays_in_check :
  exists P ms P1 M P2,
    played game_check_on_diagonal P
    /\ get_all_valid_moves P = Ret (ms, P1)
    /\ current_player_is_in_check P1 = true
    /\ In M ms
    /\ squares_of M = ((6, 5), (7, 4))
    /\ piece_moved M = "wK"
    /\ make_move M P1 = Ret (tt, P2)
    /\ white_king_location P2 = (7, 4)
    /\ cell (board P2) 7 4 = Some "wK"
    /\ cell (board P2) 4 7 = Some "bQ"
    /\ search_for_attacks 7 4 "b" P2 = Ret (true, P2).
Proof.
  eexists. eexists. eexists. eexists. eexists.
  split; [vm_compute; reflexivity|].
  split; [vm_compute; reflexivity|].
  split; [reflexivity|].
  split; [right; left; reflexivity|].
  split; [reflexivity|].
  split; [reflexivity|].
  split; [vm_compute; reflexivity|].
  repeat split.
Qed.

(** C2. After 1. g3 b6 2. Bg2 Ba6 3. Nf3 e6 4. e4 h6 the black bishop on
    a6 attacks f1, the first square the white king crosses when castling
    king-side, and g1 is not attacked.  The castling generator emits the
    castling move all the same, and [get_all_valid_moves] returns it. *)
Theorem castling_across_attacked_square :
  exists P ms P1 M,
    played game_bishop_eyes_f1 P
    /\ get_all_valid_moves P = Ret (ms, P1)
    /\ In M ms
    /\ is_castling M = true
    /\ squares_of M = ((7, 4), (7, 6))
    /\ get_king_side_castling_moves 7 4 [] P1 = Ret ([M], P1)
    /\ search_for_attacks 7 4 "b" P1 = Ret (false, P1)
    /\ search_for_attacks 7 5 "b" P1 = Ret (true, P1)
    /\ search_for_attacks 7 6 "b" P1 = Ret (false, P1).
Proof.
  eexists. eexists. eexists. eexists.
  split; [vm_compute; reflexivity|].
  split; [vm_compute; reflexivity|].
  split; [do 22 right; left; reflexivity|].
  repeat split.
Qed.

(** C4. In the stalemate reached by the ten-move game, and in the
    king-and-pawn stalemate, [get_all_valid_moves] takes the stalemate branch
    (it prints the draw line), returns no move with the in-check flag false,
    and leaves the stalemate flag false: the material classifier's result is
    assigned over it. *)
Theorem stalemate_flag_is_overwritten :
  (exists P P1,
     played game_ten_move_stalemate P
     /\ get_all_valid_moves P = Print (newline ++ "1/2 - 1/2") (Ret ([], P1))
     /\ current_player_is_in_check P1 = false
     /\ checkmate P1 = false
     /\ stalemate P1 = false)
  /\ (exists P1,
        get_all_valid_moves king_and_pawn_stalemate
          = Print (newline ++ "1/2 - 1/2") (Ret ([], P1))
        /\ current_player_is_in_check P1 = false
        /\ checkmate P1 = false
        /\ stalemate P1 = false).
Proof.
  split.
  - eexists. eexists.
    split; [vm_compute; reflexivity|].
    split; [vm_compute; reflexivity|].
    repeat split.
  - eexists.
    split; [vm_compute; reflexivity|].
    repeat split.
Qed.

(** ** Undo on an empty history *)

(** C9. On a position whose move log is empty [undo_move] returns without
    raising and leaves the whole state as it was. *)
Theorem undo_move_empty_log :
  forall s : GameState, move_log s = [] -> undo_move s = Ret (tt, s).
Proof.
  intros s Hlog.
  unfold undo_move, bind, self; simpl.
  rewrite Hlog; reflexivity.
Qed.

Lemma undo_move_empty_log_witness :
  move_log new_game = [] /\ undo_move new_game = Ret (tt, new_game).
Proof.
  split; [reflexivity | apply (undo_move_empty_log new_game); reflexivity].
Defined.

(** ** Identity of moves *)

Lemma on_board_bounds (r c : Z) :
  on_board r c = true -> 0 <= r < 8 /\ 0 <= c < 8.
Proof. unfold on_board; lia. Qed.

Lemma Move_init_fields (st en : Square) (b : Board) (p e k : bool) (m : Move) :
  Move_init st en b p e k = Some m ->
  squares_of m = (st, en)
  /\ move_id m = fst st * 1000 + snd st * 100 + fst en * 10 + snd en * 1
  /\ is_pawn_promotion m = p /\ is_en_passant m = e /\ is_castling m = k.
Proof.
  unfold Move_init, squares_of.
  destruct st as [sr sc], en as [er ec]; simpl.
  destruct (cell b sr sc); [|discriminate].
  destruct (cell b er ec); [|discriminate].
  intros H; injection H as <-; simpl; auto.
Qed.

(** C8. Two [Move] objects built on squares of the board are equal exactly
    when their origin and destination squares are, whatever grids they were
    built from and whatever their promotion, en-passant and castling
    flags. *)
Theorem Move_eq_iff_squares :
  forall (b1 b2 : Board) (st1 en1 st2 en2 : Square)
         (p1 e1 k1 p2 e2 k2 : bool) (m1 m2 : Move),
    Move_init st1 en1 b1 p1 e1 k1 = Some m1 ->
    Move_init st2 en2 b2 p2 e2 k2 = Some m2 ->
    on_board (fst st1) (snd st1) = true -> on_board (fst en1) (snd en1) = true ->
    on_board (fst st2) (snd st2) = true -> on_board (fst en2) (snd en2) = true ->
    (Move_eq m1 m2 = true <-> squares_of m1 = squares_of m2).
Proof.
  intros b1 b2 st1 en1 st2 en2 p1 e1 k1 p2 e2 k2 m1 m2 H1 H2 Hs1 He1 Hs2 He2.
  apply Move_init_fields in H1 as (Hq1 & Hid1 & _).
  apply Move_init_fields in H2 as (Hq2 & Hid2 & _).
  apply on_board_bounds in Hs1, He1, Hs2, He2.
  unfold Move_eq; rewrite Hq1, Hq2, Hid1, Hid2, Z.eqb_eq.
  destruct st1 as [a1 a2], en1 as [a3 a4], st2 as [c1 c2], en2 as [c3 c4].
  simpl in *; split.
  - intros H.
    assert (a1 = c1) by lia. assert (a2 = c2) by lia.
    assert (a3 = c3) by lia. assert (a4 = c4) by lia.
    congruence.
  - intros H; injection H as -> -> -> ->; reflexivity.
Qed.

Lemma Move_eq_iff_squares_witness :
  Move_init (1, 7) (0, 6) (board new_game) true false false
    = Some (mkMove 1 7 0 6 "bP" "bN" true false false 1706)
  /\ Move_init (1, 7) (0, 6) (board new_game) false false false
    = Some (mkMove 1 7 0 6 "bP" "bN" false false false 1706)
  /\ (Move_eq (mkMove 1 7 0 6 "bP" "bN" true false false 1706)
              (mkMove 1 7 0 6 "bP" "bN" false false false 1706) = true
      <-> squares_of (mkMove 1 7 0 6 "bP" "bN" true false false 1706)
          = squares_of (mkMove 1 7 0 6 "bP" "bN" false false false 1706)).
Proof.
  split; [reflexivity|]. split; [reflexivity|].
  apply (Move_eq_iff_squares (board new_game) (board new_game)
           (1, 7) (0, 6) (1, 7) (0, 6) true false false false false false);
    reflexivity.
Defined.

(** ** Reasoning about methods *)

Section Returns.

Context {A : Type}.

Lemma returns_ret (a : A) (s : GameState) (Q : A -> GameState -> Prop) :
  Q a s -> returns (ret a) s Q.
Proof. intros H; exists a, s; split; [reflexivity | exact H]. Qed.

Lemma returns_bind {B : Type} (m : M A) (f : A -> M B) (s : GameState)
    (Q : B -> GameState -> Prop) :
  returns m s (fun a s' => returns (f a) s' Q) -> returns (bind m f) s Q.
Proof.
  intros (a & s' & Hm & b & s'' & Hf & HQ).
  exists b, s''; split; [|exact HQ].
  unfold bind; rewrite Hm; simpl; exact Hf.
Qed.

Lemma returns_conseq (m : M A) (s : GameState) (Q Q' : A -> GameState -> Prop) :
  returns m s Q -> (forall a s', Q a s' -> Q' a s') -> returns m s Q'.
Proof.
  intros (a & s' & Hm & HQ) Himp; exists a, s'; split; [exact Hm | auto].
Qed.

Lemma returns_self (f : GameState -> A) (s : GameState)
    (Q : A -> GameState -> Prop) :
  Q (f s) s -> returns (self f) s Q.
Proof. intros H; exists (f s), s; split; [reflexivity | exact H]. Qed.

Lemma returns_orraise (e : exn) (o : option A) (s : GameState)
    (Q : A -> GameState -> Prop) :
  (exists a, o = Some a /\ Q a s) -> returns (orraise e o) s Q.
Proof. intros (a & -> & H); exists a, s; split; [reflexivity | exact H]. Qed.

End Returns.

Lemma returns_assign (f : GameState -> GameState) (s : GameState)
    (Q : unit -> GameState -> Prop) :
  Q tt (f s) -> returns (assign f) s Q.
Proof. intros H; exists tt, (f s); split; [reflexivity | exact H]. Qed.

Lemma returns_for_loop {X S : Type} (Inv : S -> GameState -> Prop)
    (xs : list X) (body : X -> S -> M (Ctl S)) :
  (forall x st s, In x xs -> Inv st s ->
     returns (body x st) s (fun c s' => Inv (ctl_state c) s')) ->
  forall st s, Inv st s -> returns (for_loop xs body st) s Inv.
Proof.
  induction xs as [|x xs IH]; intros Hbody st s Hinv; simpl.
  - apply returns_ret; exact Hinv.
  - apply returns_bind.
    apply returns_conseq with (Q := fun c s' => Inv (ctl_state c) s').
    + apply Hbody; [left; reflexivity | exact Hinv].
    + intros [st'|st'] s' H; simpl in H.
      * apply IH; [|exact H].
        intros y st0 s0 Hy; apply Hbody; right; exact Hy.
      * apply returns_ret; exact H.
Qed.

Lemma returns_loop {X S : Type} (Inv : S -> GameState -> Prop)
    (xs : list X) (body : X -> S -> M (Ctl S)) (st : S) (s : GameState)
    (Q : S -> GameState -> Prop) :
  (forall x st s, In x xs -> Inv st s ->
     returns (body x st) s (fun c s' => Inv (ctl_state c) s')) ->
  Inv st s ->
  (forall st' s', Inv st' s' -> Q st' s') ->
  returns (for_loop xs body st) s Q.
Proof.
  intros Hbody Hinv Hpost.
  apply returns_conseq with (Q := Inv); [|exact Hpost].
  apply returns_for_loop; assumption.
Qed.

(** *** Reading a well-formed grid *)

Lemma index_in_range (n : nat) (i : Z) :
  0 <= i < Z.of_nat n -> Py.index n i = Some (Z.to_nat i).
Proof.
  intros H; unfold Py.index.
  destruct ((0 <=? i) && (i <? Z.of_nat n)) eqn:E; [reflexivity | lia].
Qed.

Lemma getitem_in_range {A : Type} (l : list A) (i : Z) :
  0 <= i < Z.of_nat (List.length l) ->
  exists x, Py.getitem l i = Some x /\ In x l.
Proof.
  intros H; unfold Py.getitem; rewrite index_in_range by exact H.
  destruct (nth_error l (Z.to_nat i)) as [x|] eqn:E.
  - exists x; split; [reflexivity | eapply nth_error_In; exact E].
  - apply nth_error_None in E; lia.
Qed.

Lemma wf_board_row (b : Board) (r : Z) :
  wf_board b -> 0 <= r < 8 ->
  exists row, Py.getitem b r = Some row /\ wf_row row.
Proof.
  intros [Hlen Hrows] Hr.
  destruct (getitem_in_range b r) as (row & Hget & Hin); [lia|].
  exists row; split; [exact Hget|].
  rewrite Forall_forall in Hrows; auto.
Qed.

Lemma wf_board_cell (b : Board) (r c : Z) :
  wf_board b -> on_board r c = true ->
  exists p, cell b r c = Some p /\ (2 <= String.length p)%nat.
Proof.
  intros Hwf Hon; apply on_board_bounds in Hon as [Hr Hc].
  destruct (wf_board_row b r Hwf Hr) as (row & Hrow & Hlen & Htok).
  destruct (getitem_in_range row c) as (p & Hget & Hin); [lia|].
  exists p; unfold cell; rewrite Hrow; split; [exact Hget|].
  rewrite Forall_forall in Htok; auto.
Qed.

Lemma char_in_range (p : string) (i : nat) :
  (i < String.length p)%nat -> exists a, Py.char p i = Some a.
Proof.
  unfold Py.char; revert i.
  induction p as [|a p IH]; intros i H; simpl in *; [lia|].
  destruct i as [|i]; [exists a; reflexivity|].
  apply IH; lia.
Qed.

Lemma returns_board_at (r c : Z) (s : GameState) (Q : string -> GameState -> Prop) :
  wf_board (board s) -> on_board r c = true ->
  (forall p, cell (board s) r c = Some p -> (2 <= String.length p)%nat -> Q p s) ->
  returns (board_at r c) s Q.
Proof.
  intros Hwf Hon HQ.
  destruct (wf_board_cell _ _ _ Hwf Hon) as (p & Hp & Hlen).
  unfold board_at; apply returns_bind, returns_self, returns_orraise.
  exists p; auto.
Qed.

Lemma returns_char_at (p : string) (i : nat) (s : GameState)
    (Q : ascii -> GameState -> Prop) :
  (i < String.length p)%nat ->
  (forall a, Py.char p i = Some a -> Q a s) ->
  returns (char_at p i) s Q.
Proof.
  intros Hlen HQ; destruct (char_in_range p i Hlen) as (a & Ha).
  unfold char_at; apply returns_orraise; exists a; auto.
Qed.

(** One step of symbolic execution of a method. *)
Ltac mstep :=
  lazymatch goal with
  | |- returns (bind _ _) _ _ => apply returns_bind
  | |- returns (ret _) _ _ => apply returns_ret
  | |- returns (self _) _ _ => apply returns_self
  | |- returns (assign _) _ _ => apply returns_assign
  | |- returns (when ?c _) _ _ => unfold when
  | |- returns (board_at _ _) _ _ =>
      apply returns_board_at; [assumption | assumption | intros ? ? ?]
  | |- returns (char_at _ _) _ _ =>
      apply returns_char_at; [lia | intros ? ?]
  | |- returns (if ?c then _ else _) _ _ => destruct c eqn:?
  | |- returns (match ?c with _ => _ end) _ _ => destruct c eqn:?
  end; cbv beta zeta.

Ltac msteps := repeat mstep.

(** ** The detector reads and never writes *)

Lemma search_for_pins_and_checks_returns (s : GameState) :
  wf_board (board s) ->
  returns search_for_pins_and_checks s (fun _ s' => s' = s).
Proof.
  intros Hwf; unfold search_for_pins_and_checks.
  msteps.
  apply returns_loop with (Inv := fun (_ : Scan) s' => s' = s).
  - intros [j dir_j] sc s1 _ ->; cbn [fst snd].
    msteps.
    apply returns_loop with (Inv := fun (_ : option Ray * Scan) s' => s' = s).
    + intros d st s1 _ ->. msteps; reflexivity.
    + reflexivity.
    + intros res s1 ->; msteps; reflexivity.
  - reflexivity.
  - intros sc s1 ->; msteps.
    apply returns_loop with (Inv := fun (_ : Scan) s' => s' = s).
    + intros d st s1 _ ->. msteps; reflexivity.
    + reflexivity.
    + intros sc' s1 ->; msteps; reflexivity.
Qed.

(** C10. On every position (an 8 x 8 grid of piece tokens)
    [search_for_pins_and_checks] returns its triple and the state of the
    object is, field for field, the state before the call. *)
Theorem search_for_pins_and_checks_frame :
  forall s : GameState,
    wf_board (board s) ->
    exists in_check pins checks,
      search_for_pins_and_checks s = Ret ((in_check, pins, checks), s).
Proof.
  intros s Hwf.
  destruct (search_for_pins_and_checks_returns s Hwf) as ([[c p] k] & s' & H & ->).
  exists c, p, k; exact H.
Qed.

Lemma wf_board_new_game : wf_board (board new_game).
Proof.
  split; [reflexivity|].
  repeat (apply Forall_cons; [split; [reflexivity | repeat constructor]|]).
  apply Forall_nil.
Qed.

Lemma search_for_pins_and_checks_frame_witness :
  wf_board (board new_game)
  /\ exists in_check pins checks,
       search_for_pins_and_checks new_game = Ret ((in_check, pins, checks), new_game).
Proof.
  split; [exact wf_board_new_game|].
  apply (search_for_pins_and_checks_frame new_game); exact wf_board_new_game.
Defined.

(** ** Writing a well-formed grid *)

Lemma set_nth_length {A : Type} (l : list A) (k : nat) (v : A) :
  List.length (Py.set_nth l k v) = List.length l.
Proof.
  revert k; induction l as [|h t IH]; intros [|k]; simpl; auto.
Qed.

Lemma nth_error_set_nth_eq {A : Type} (l : list A) (k : nat) (v : A) :
  (k < List.length l)%nat -> nth_error (Py.set_nth l k v) k = Some v.
Proof.
  revert k; induction l as [|h t IH]; intros [|k] H; simpl in *; try lia; auto.
  apply IH; lia.
Qed.

Lemma nth_error_set_nth_ne {A : Type} (l : list A) (k j : nat) (v : A) :
  j <> k -> nth_error (Py.set_nth l k v) j = nth_error l j.
Proof.
  revert k j; induction l as [|h t IH]; intros [|k] [|j] H; simpl; auto; try lia.
Qed.

Lemma Forall_set_nth {A : Type} (P : A -> Prop) (l : list A) (k : nat) (v : A) :
  Forall P l -> P v -> Forall P (Py.set_nth l k v).
Proof.
  intros Hl Hv; revert k; induction Hl as [|h t Hh Ht IH]; intros [|k]; simpl;
    constructor; auto.
Qed.

Lemma getitem_nth {A : Type} (l : list A) (i : Z) :
  0 <= i < Z.of_nat (List.length l) ->
  Py.getitem l i = nth_error l (Z.to_nat i).
Proof.
  intros H; unfold Py.getitem; rewrite index_in_range by exact H; reflexivity.
Qed.

Lemma setitem_nth {A : Type} (l : list A) (i : Z) (v : A) :
  0 <= i < Z.of_nat (List.length l) ->
  Py.setitem l i v = Some (Py.set_nth l (Z.to_nat i) v).
Proof.
  intros H; unfold Py.setitem; rewrite index_in_range by exact H; reflexivity.
Qed.

Lemma set_cell_on_board (b : Board) (r c : Z) (v : string) :
  wf_board b -> on_board r c = true -> (2 <= String.length v)%nat ->
  exists b',
    set_cell b r c v = Some b'
    /\ wf_board b'
    /\ cell b' r c = Some v
    /\ forall r' c', on_board r' c' = true -> (r', c') <> (r, c) ->
                     cell b' r' c' = cell b r' c'.
Proof.
  intros Hwf Hon Hv.
  pose proof (on_board_bounds _ _ Hon) as [Hr Hc].
  destruct (wf_board_row b r Hwf Hr) as (row & Hrow & Hlen & Htok).
  destruct Hwf as [Hb Hrows].
  exists (Py.set_nth b (Z.to_nat r) (Py.set_nth row (Z.to_nat c) v)).
  unfold set_cell; rewrite Hrow.
  rewrite (setitem_nth row) by lia.
  rewrite (setitem_nth b) by lia.
  split; [reflexivity|].
  split.
  { split; [rewrite set_nth_length; exact Hb|].
    apply Forall_set_nth; [exact Hrows|].
    split; [rewrite set_nth_length; exact Hlen|].
    apply Forall_set_nth; assumption. }
  split.
  { unfold cell.
    rewrite getitem_nth by (rewrite set_nth_length; lia).
    rewrite nth_error_set_nth_eq by lia.
    rewrite getitem_nth by (rewrite set_nth_length; lia).
    apply nth_error_set_nth_eq; lia. }
  intros r' c' Hon' Hne.
  pose proof (on_board_bounds _ _ Hon') as [Hr' Hc'].
  unfold cell.
  rewrite (getitem_nth (Py.set_nth _ _ _)) by (rewrite set_nth_length; lia).
  rewrite (getitem_nth b) by lia.
  destruct (Z.eq_dec r' r) as [->|Hrr].
  - rewrite nth_error_set_nth_eq by lia.
    rewrite getitem_nth in Hrow by lia; rewrite Hrow.
    rewrite getitem_nth by (rewrite set_nth_length; lia).
    rewrite (getitem_nth row) by lia.
    apply nth_error_set_nth_ne.
    intros E; apply Hne; f_equal; lia.
  - rewrite nth_error_set_nth_ne by lia; reflexivity.
Qed.

Lemma returns_board_set (r c : Z) (v : string) (s : GameState)
    (Q : unit -> GameState -> Prop) :
  wf_board (board s) -> on_board r c = true -> (2 <= String.length v)%nat ->
  (forall b', wf_board b' -> cell b' r c = Some v ->
              (forall r' c', on_board r' c' = true -> (r', c') <> (r, c) ->
                             cell b' r' c' = cell (board s) r' c') ->
              Q tt (with_board b' s)) ->
  returns (board_set r c v) s Q.
Proof.
  intros Hwf Hon Hv HQ.
  destruct (set_cell_on_board _ _ _ _ Hwf Hon Hv) as (b' & Hset & Hwf' & Hc & Hothers).
  unfold board_set.
  apply returns_bind, returns_self, returns_bind, returns_orraise.
  exists b'; split; [exact Hset|].
  apply returns_assign; auto.
Qed.

(** ** Methods that stop at a prompt *)

Lemma asks_bind_returns {A B : Type} (m : M A) (f : A -> M B) (s : GameState)
    (prompt : string) (Q : string -> B -> GameState -> Prop) :
  returns m s (fun a s' => asks (f a) s' prompt Q) -> asks (bind m f) s prompt Q.
Proof.
  intros (a & s' & Hm & k & Hk & HQ).
  exists k; split; [|exact HQ].
  unfold bind; rewrite Hm; simpl; exact Hk.
Qed.

Lemma asks_bind_asks {A B : Type} (m : M A) (f : A -> M B) (s : GameState)
    (prompt : string) (Q : string -> B -> GameState -> Prop) :
  asks m s prompt (fun reply a s' => returns (f a) s' (Q reply)) ->
  asks (bind m f) s prompt Q.
Proof.
  intros (k & Hk & Hf).
  exists (fun ans => ebind (k ans) (fun p => f (fst p) (snd p))).
  split; [unfold bind; rewrite Hk; reflexivity|].
  intros reply; destruct (Hf reply) as (a & s' & Hka & b & s'' & Hfa & HQ).
  exists b, s''; split; [rewrite Hka; exact Hfa | exact HQ].
Qed.

Lemma asks_input (prompt : string) (s : GameState)
    (Q : string -> string -> GameState -> Prop) :
  (forall reply, Q reply reply s) -> asks (input prompt) s prompt Q.
Proof.
  intros H; exists (fun ans => Ret (ans, s)); split; [reflexivity|].
  intros reply; exists reply, s; auto.
Qed.

Lemma update_castling_rights_returns (m : Move) (s : GameState) :
  returns (update_castling_rights m) s
    (fun _ s' => exists rights, s' = with_current_castling_rights rights s).
Proof.
  destruct s; unfold update_castling_rights, clear_right.
  msteps; eexists; reflexivity.
Qed.

Lemma chosen_kind_not_empty (reply : string) :
  (1 <= String.length (chosen_kind reply))%nat.
Proof.
  unfold chosen_kind.
  destruct (Py.upper reply) as [|a u] eqn:E; simpl; lia.
Qed.

Lemma on_board_mix (r1 c1 r2 c2 : Z) :
  on_board r1 c1 = true -> on_board r2 c2 = true -> on_board r1 c2 = true.
Proof. unfold on_board; lia. Qed.

(** Side conditions of a write to the grid. *)
Ltac grid_side :=
  cbn [board with_board with_move_log with_white_to_move
       with_white_king_location with_black_king_location
       with_en_passant_possible with_current_castling_rights
       with_castling_rights_log String.length];
  first [ assumption | lia | eapply on_board_mix; eassumption ].

(** One step of a method that writes the grid. *)
Ltac wstep :=
  lazymatch goal with
  | |- returns (board_set _ _ _) _ _ =>
      apply returns_board_set; [grid_side | grid_side | grid_side | intros ? ? ? ?]
  | |- returns (two_square_pawn_advance _) _ _ => unfold two_square_pawn_advance
  | |- returns (update_castling_rights _) _ _ =>
      eapply returns_conseq;
      [apply update_castling_rights_returns | intros ? ? [? ->]]
  | _ => mstep
  end; cbv beta zeta.

Lemma kind_named_chosen (reply kind : string) :
  kind_named reply = Some kind -> chosen_kind reply = kind.
Proof.
  unfold kind_named; intros H.
  repeat match type of H with
         | (if ?b then _ else _) = _ =>
             let E := fresh "E" in
             destruct b eqn:E;
             [ try (apply orb_true_iff in E; destruct E as [E|E]);
               apply String.eqb_eq in E; subst reply;
               injection H as <-; reflexivity
             | ]
         end.
  discriminate H.
Qed.

(** C3 (as amended). [make_move] takes a move and nothing else.  Given a
    move flagged [is_pawn_promotion] (and not castling) between squares of
    the board, it stops at the prompt "Please choose 'Q', 'R', 'B', or 'N': "
    and, whatever line is entered, then returns; when the line names a kind
    (one of the four letters, in either case, or the empty line for the
    queen) the destination square holds the mover's colour letter followed
    by that kind. *)
Theorem make_move_promotion_asks :
  forall (m : Move) (s : GameState),
    is_pawn_promotion m = true ->
    is_castling m = false ->
    wf_board (board s) ->
    on_board (start_r m) (start_c m) = true ->
    on_board (end_r m) (end_c m) = true ->
    (2 <= String.length (piece_moved m))%nat ->
    asks (make_move m) s promotion_prompt
      (fun reply _ s' =>
         forall kind,
           kind_named reply = Some kind ->
           exists color,
             Py.char (piece_moved m) 0 = Some color
             /\ cell (board s') (end_r m) (end_c m)
                = Some (String color kind)).
Proof.
  intros m s Hpromo Hcastle Hwf Hst Hen Hlen.
  unfold make_move; rewrite Hpromo, Hcastle.
  set (ask := when true _).
  repeat (lazymatch goal with
          | |- asks (bind ?h _) _ _ _ =>
              tryif is_var h then fail
              else (apply asks_bind_returns; repeat wstep)
          end).
  all: subst ask; unfold when at 1.
  all: apply asks_bind_asks, asks_bind_asks, asks_input; intros reply.
  all: fold (chosen_kind reply); pose proof (chosen_kind_not_empty reply).
  all: repeat wstep.
  all: intros kind Hkind; rewrite <- (kind_named_chosen reply kind Hkind).
  all: eexists; split; [eassumption|].
  all: cbn [board with_board with_move_log with_white_to_move
            with_white_king_location with_black_king_location
            with_en_passant_possible with_current_castling_rights
            with_castling_rights_log]; assumption.
Qed.

Ltac wf_board_tac :=
  split; [reflexivity|];
  repeat (apply Forall_cons; [split; [reflexivity | repeat constructor]|]);
  apply Forall_nil.

Lemma wf_board_pawn_on_a7 : wf_board (board pawn_on_a7).
Proof. wf_board_tac. Qed.

Lemma make_move_promotion_asks_witness :
  is_pawn_promotion pawn_to_a8 = true
  /\ is_castling pawn_to_a8 = false
  /\ wf_board (board pawn_on_a7)
  /\ asks (make_move pawn_to_a8) pawn_on_a7 promotion_prompt
       (fun reply _ s' =>
          forall kind,
            kind_named reply = Some kind ->
            exists color,
              Py.char (piece_moved pawn_to_a8) 0 = Some color
              /\ cell (board s') (end_r pawn_to_a8) (end_c pawn_to_a8)
                 = Some (String color kind)).
Proof.
  split; [reflexivity|]. split; [reflexivity|].
  split; [exact wf_board_pawn_on_a7|].
  apply (make_move_promotion_asks pawn_to_a8 pawn_on_a7);
    first [reflexivity | exact wf_board_pawn_on_a7 | simpl; lia].
Defined.

(** C3 (as stated, refuted). After 1. h4 g5 2. hxg5 h6 3. gxh6 a6 4. h7 a5
    the legal move hxg8 is flagged as a promotion; [make_move], which was
    given the move and no kind, does not return but waits at the prompt, and
    when the line "n" is entered the destination square receives the token
    "wN". *)
Lemma make_move_waits_at_prompt :
  exists P ms P1 M k P2,
    played game_before_promotion P
    /\ get_all_valid_moves P = Ret (ms, P1)
    /\ In M ms
    /\ squares_of M = ((1, 7), (0, 6))
    /\ is_pawn_promotion M = true
    /\ make_move M P1 = Input promotion_prompt k
    /\ k "n" = Ret (tt, P2)
    /\ cell (board P2) 0 6 = Some "wN".
Proof.
  eexists. eexists. eexists. eexists. eexists. eexists.
  split; [vm_compute; reflexivity|].
  split; [vm_compute; reflexivity|].
  split; [left; reflexivity|].
  split; [reflexivity|].
  split; [reflexivity|].
  split; [vm_compute; reflexivity|].
  split; [vm_compute; reflexivity|].
  reflexivity.
Qed.

(** ** The material classifier *)

Lemma bind_run {A B : Type} (m : M A) (f : A -> M B) (s s' : GameState) (a : A) :
  m s = Ret (a, s') -> bind m f s = f a s'.
Proof. intros H; unfold bind; rewrite H; reflexivity. Qed.

(** A loop whose body reads the state and never breaks is a fold. *)
Lemma for_loop_fold {X S : Type} (xs : list X) (body : X -> S -> M (Ctl S))
    (g : S -> X -> S) (s : GameState) :
  (forall x st, In x xs -> body x st s = Ret (Continue (g st x), s)) ->
  forall st, for_loop xs body st s = Ret (fold_left g xs st, s).
Proof.
  induction xs as [|x xs IH]; intros Hbody st; simpl; [reflexivity|].
  rewrite (bind_run _ _ _ _ _ (Hbody x st (or_introl eq_refl))).
  apply IH; intros y st' Hy; apply Hbody; right; exact Hy.
Qed.

Lemma fold_left_pairs {S : Type} (g : S -> Square -> S) (r : Z) (cs : list Z) (st : S) :
  fold_left (fun st c => g st (r, c)) cs st
  = fold_left g (map (fun c => (r, c)) cs) st.
Proof. revert st; induction cs as [|c cs IH]; intros st; simpl; auto. Qed.

Lemma fold_left_rows {S : Type} (g : S -> Square -> S) (rs cs : list Z) (st : S) :
  fold_left (fun st r => fold_left g (map (fun c => (r, c)) cs) st) rs st
  = fold_left g (flat_map (fun r => map (fun c => (r, c)) cs) rs) st.
Proof.
  revert st; induction rs as [|r rs IH]; intros st; simpl; [reflexivity|].
  rewrite fold_left_app; apply IH.
Qed.

(** Two nested loops over rows and columns fold over the squares. *)
Lemma scan_fold {S : Type} (body : Z -> Z -> S -> M (Ctl S)) (g : S -> Square -> S)
    (s : GameState) :
  (forall r c st, In r (Py.range 0 8) -> In c (Py.range 0 8) ->
     body r c st s = Ret (Continue (g st (r, c)), s)) ->
  forall st,
    for_loop (Py.range 0 8)
      (fun r st =>
         st' <- for_loop (Py.range 0 8) (fun c st => body r c st) st ;;
         ret (Continue st'))
      st s
    = Ret (fold_left g all_squares st, s).
Proof.
  intros Hbody st; unfold all_squares.
  rewrite <- fold_left_rows.
  apply for_loop_fold; intros r st' Hr.
  erewrite bind_run.
  2: { apply for_loop_fold with (g := fun st c => g st (r, c)).
       intros c st'' Hc; apply Hbody; assumption. }
  rewrite fold_left_pairs; reflexivity.
Qed.

Lemma In_range (a b x : Z) : In x (Py.range a b) <-> a <= x < b.
Proof.
  unfold Py.range; rewrite in_map_iff; split.
  - intros (k & <- & Hk); apply in_seq in Hk; lia.
  - intros H; exists (Z.to_nat (x - a)); split; [lia|].
    apply in_seq; lia.
Qed.

Lemma range_on_board (r c : Z) :
  In r (Py.range 0 8) -> In c (Py.range 0 8) -> on_board r c = true.
Proof. rewrite !In_range; unfold on_board; lia. Qed.

Lemma In_all_squares (r c : Z) : on_board r c = true -> In (r, c) all_squares.
Proof.
  intros H; apply on_board_bounds in H as [Hr Hc].
  unfold all_squares; apply in_flat_map; exists r; split.
  - apply In_range; lia.
  - apply in_map, In_range; lia.
Qed.

Lemma all_squares_on_board (sq : Square) :
  In sq all_squares -> on_board (fst sq) (snd sq) = true.
Proof.
  unfold all_squares; rewrite in_flat_map; intros (r & Hr & Hin).
  apply in_map_iff in Hin as (c & <- & Hc); apply range_on_board; assumption.
Qed.

Lemma board_at_run (s : GameState) (r c : Z) (p : string) :
  cell (board s) r c = Some p -> board_at r c s = Ret (p, s).
Proof. intros H; unfold board_at, bind, self; simpl; rewrite H; reflexivity. Qed.

Lemma char_at_run (s : GameState) (p : string) (i : nat) (a : ascii) :
  Py.char p i = Some a -> char_at p i s = Ret (a, s).
Proof. intros H; unfold char_at; rewrite H; reflexivity. Qed.

Lemma active_scan_run (s : GameState) :
  wf_board (board s) ->
  active_scan s = Ret (fold_left (active_step (board s)) all_squares [], s).
Proof.
  intros Hwf; unfold active_scan.
  apply scan_fold with
    (body := fun r c active =>
               p <- board_at r c ;;
               kind <- char_at p 1 ;;
               if negb (Ascii.eqb kind "K" || String.eqb p "--")
               then ret (Continue (active ++ [p]))
               else ret (Continue active)).
  intros r c acc Hr Hc.
  destruct (wf_board_cell _ _ _ Hwf (range_on_board _ _ Hr Hc)) as (p & Hp & Hlen).
  destruct (char_in_range p 1) as (k & Hk); [lia|].
  rewrite (bind_run _ _ _ _ _ (board_at_run _ _ _ _ Hp)).
  rewrite (bind_run _ _ _ _ _ (char_at_run _ _ _ _ Hk)).
  unfold active_step, is_material, has_kind; simpl; rewrite Hp, Hk.
  destruct (negb _); reflexivity.
Qed.

Lemma fold_active_step (b : Board) (sqs : list Square) (acc : list string) :
  fold_left (active_step b) sqs acc
  = acc ++ map snd (filter (fun x => is_material (snd x)) (flat_map (piece_on b) sqs)).
Proof.
  revert acc; induction sqs as [|sq sqs IH]; intros acc; simpl.
  - rewrite app_nil_r; reflexivity.
  - rewrite IH, filter_app, map_app.
    unfold active_step, piece_on.
    destruct (cell b (fst sq) (snd sq)) as [p|]; simpl; [|reflexivity].
    destruct (is_material p); simpl; [|reflexivity].
    rewrite <- app_assoc; reflexivity.
Qed.

Lemma not_material_not_bishop (p : string) :
  is_material p = false -> has_kind "B" p = false.
Proof.
  unfold is_material, has_kind; intros H.
  apply negb_false_iff, orb_true_iff in H as [H|H].
  - destruct (Py.char p 1) as [k|]; [|reflexivity].
    apply Ascii.eqb_eq in H; subst k; reflexivity.
  - apply String.eqb_eq in H; subst p; reflexivity.
Qed.

Lemma parity_scan_run (s : GameState) :
  wf_board (board s) ->
  parity_scan s
  = Ret (fold_left parity_step (material (board s)) (mkParity 0 false 0), s).
Proof.
  intros Hwf; unfold parity_scan.
  erewrite scan_fold with
    (body := fun r c par =>
               p <- board_at r c ;;
               kind <- char_at p 1 ;;
               if Ascii.eqb kind "B" then
                 if negb (first_bishop_found par)
                 then ret (Continue (mkParity (r + c) true (parity_2nd_bishop par)))
                 else ret (Continue (mkParity (parity_1st_bishop par)
                                       (first_bishop_found par) (r + c)))
               else ret (Continue par))
    (g := fun par sq =>
            fold_left parity_step (piece_on (board s) sq) par).
  - f_equal; f_equal; unfold material.
    generalize (mkParity 0 false 0); generalize all_squares.
    induction l as [|sq sqs IH]; intros par; simpl; [reflexivity|].
    rewrite IH, filter_app, fold_left_app; f_equal.
    unfold piece_on; destruct (cell (board s) (fst sq) (snd sq)) as [p|];
      simpl; [|reflexivity].
    destruct (is_material p) eqn:E; simpl; [reflexivity|].
    unfold parity_step; simpl; rewrite (not_material_not_bishop _ E); reflexivity.
  - intros r c par Hr Hc.
    destruct (wf_board_cell _ _ _ Hwf (range_on_board _ _ Hr Hc)) as (p & Hp & Hlen).
    destruct (char_in_range p 1) as (k & Hk); [lia|].
    rewrite (bind_run _ _ _ _ _ (board_at_run _ _ _ _ Hp)).
    rewrite (bind_run _ _ _ _ _ (char_at_run _ _ _ _ Hk)).
    unfold piece_on; simpl; rewrite Hp; simpl.
    unfold parity_step, has_kind; simpl; rewrite Hk.
    destruct (Ascii.eqb k "B"); [|reflexivity].
    destruct (negb _); reflexivity.
Qed.

Lemma material_entry (b : Board) (sq : Square) (p : string) :
  wf_board b -> In (sq, p) (material b) ->
  on_board (fst sq) (snd sq) = true
  /\ cell b (fst sq) (snd sq) = Some p
  /\ is_material p = true
  /\ (2 <= String.length p)%nat.
Proof.
  intros Hwf Hin; unfold material in Hin.
  apply filter_In in Hin as [Hin Hmat]; simpl in Hmat.
  apply in_flat_map in Hin as (sq' & Hsq & Hin).
  pose proof (all_squares_on_board _ Hsq) as Hon.
  destruct (wf_board_cell _ _ _ Hwf Hon) as (p' & Hp' & Hlen).
  unfold piece_on in Hin; rewrite Hp' in Hin.
  destruct Hin as [E|[]]; injection E as -> ->; auto.
Qed.

Lemma In_material (b : Board) (r c : Z) (p : string) :
  on_board r c = true -> cell b r c = Some p -> is_material p = true ->
  In ((r, c), p) (material b).
Proof.
  intros Hon Hp Hmat; unfold material.
  apply filter_In; split; [|exact Hmat].
  apply in_flat_map; exists (r, c); split; [apply In_all_squares; exact Hon|].
  unfold piece_on; simpl; rewrite Hp; left; reflexivity.
Qed.

Lemma parity_of_sum (x y : Z) :
  ((x + y) mod 2 =? 0) = (x mod 2 =? y mod 2).
Proof.
  pose proof (Z.mod_pos_bound x 2 ltac:(lia)).
  pose proof (Z.mod_pos_bound y 2 ltac:(lia)).
  pose proof (Z.mod_pos_bound (x + y) 2 ltac:(lia)).
  pose proof (Z.div_mod x 2 ltac:(lia)).
  pose proof (Z.div_mod y 2 ltac:(lia)).
  pose proof (Z.div_mod (x + y) 2 ltac:(lia)).
  destruct ((x + y) mod 2 =? 0) eqn:E1, (x mod 2 =? y mod 2) eqn:E2; lia.
Qed.

Lemma comprehension_pair {Y : Type} (f : string -> M Y) (s : GameState)
    (p q : string) (y z : Y) :
  f p s = Ret (y, s) -> f q s = Ret (z, s) ->
  comprehension f [p; q] s = Ret ([y; z], s).
Proof.
  intros Hp Hq; simpl.
  rewrite (bind_run _ _ _ _ _ Hp).
  erewrite bind_run; [reflexivity|].
  rewrite (bind_run _ _ _ _ _ Hq); reflexivity.
Qed.

(** On a well-formed grid the classifier returns [classified_draw] of the
    material and leaves the state alone. *)
Lemma search_for_material_stalemate_run (s : GameState) :
  wf_board (board s) ->
  search_for_material_stalemate s = Ret (classified_draw (material (board s)), s).
Proof.
  intros Hwf; unfold search_for_material_stalemate.
  rewrite (bind_run _ _ _ _ _ (active_scan_run s Hwf)).
  rewrite fold_active_step; fold (material (board s)); cbn [app].
  pose proof (material_entry (board s)) as Hent.
  destruct (material (board s)) as [|[a p] [|[b q] [|x rest]]] eqn:Hm.
  - reflexivity.
  - destruct (Hent a p Hwf (or_introl eq_refl)) as (_ & _ & _ & Hlen).
    destruct (char_in_range p 1) as (k & Hk); [lia|].
    cbn [map snd List.length Z.of_nat Z.eqb Pos.of_succ_nat Pos.eqb].
    unfold Py.getitem; cbn.
    rewrite (bind_run _ _ _ _ _ (char_at_run _ _ _ _ Hk)).
    unfold has_kind; rewrite Hk; reflexivity.
  - destruct (Hent a p Hwf (or_introl eq_refl)) as (_ & _ & _ & Hlenp).
    destruct (Hent b q Hwf (or_intror (or_introl eq_refl))) as (_ & _ & _ & Hlenq).
    destruct (char_in_range p 1) as (kp & Hkp); [lia|].
    destruct (char_in_range q 1) as (kq & Hkq); [lia|].
    destruct (char_in_range p 0) as (cp & Hcp); [lia|].
    destruct (char_in_range q 0) as (cq & Hcq); [lia|].
    cbn [map snd List.length Z.of_nat Z.eqb Pos.of_succ_nat Pos.eqb Pos.succ
         all_are forallb classified_draw].
    rewrite !andb_true_r.
    destruct ((String.eqb p "bB" && String.eqb q "bB")
              || (String.eqb p "wB" && String.eqb q "wB")) eqn:Eb.
    + rewrite (bind_run _ _ _ _ _ (parity_scan_run s Hwf)), Hm.
      assert (has_kind "B" p = true /\ has_kind "B" q = true) as [Hp Hq].
      { apply orb_true_iff in Eb as [E|E]; apply andb_true_iff in E as [E1 E2];
          apply String.eqb_eq in E1, E2; subst; split; reflexivity. }
      unfold ret; f_equal; f_equal.
      cbn [fold_left]; unfold parity_step; cbn [fst snd]; rewrite Hp, Hq; cbn.
      apply parity_of_sum.
    + rewrite (bind_run _ _ _ _ _
                 (comprehension_pair _ s p q kp kq
                    (char_at_run _ _ _ _ Hkp) (char_at_run _ _ _ _ Hkq))).
      rewrite (bind_run _ _ _ _ _
                 (comprehension_pair _ s p q cp cq
                    (char_at_run _ _ _ _ Hcp) (char_at_run _ _ _ _ Hcq))).
      unfold has_kind, has_color; rewrite Hkp, Hkq, Hcp, Hcq.
      cbn [forallb existsb]; rewrite !andb_true_r, !orb_false_r.
      destruct (Ascii.eqb kp "B" && Ascii.eqb kq "B"
                && ((Ascii.eqb cp "w" || Ascii.eqb cq "w")
                    && (Ascii.eqb cp "b" || Ascii.eqb cq "b"))); [reflexivity|].
      destruct (String.eqb p "wN" && String.eqb q "wN"); [reflexivity|].
      destruct (String.eqb p "bN" && String.eqb q "bN"); reflexivity.
  - cbn [classified_draw].
    rewrite !length_map; cbn [List.length].
    set (n := Z.of_nat _).
    assert (Hn : 3 <= n) by (subst n; lia).
    destruct (n =? 0) eqn:E0; [lia|].
    destruct (n =? 1) eqn:E1; [lia|].
    destruct (n =? 2) eqn:E2; [lia|].
    reflexivity.
Qed.

(** ** The legal-move filter on drawn material *)

Lemma returns_for_loop_gen {X S : Type} (Inv : list X -> S -> GameState -> Prop)
    (Post : S -> GameState -> Prop) (body : X -> S -> M (Ctl S)) :
  (forall x rest st s, Inv (x :: rest) st s ->
     returns (body x st) s
       (fun c s' => match c with
                    | Continue st' => Inv rest st' s'
                    | Break st' => Post st' s'
                    end)) ->
  (forall st s, Inv [] st s -> Post st s) ->
  forall xs st s, Inv xs st s -> returns (for_loop xs body st) s Post.
Proof.
  intros Hbody Hend xs; induction xs as [|x xs IH]; intros st s Hinv; simpl.
  - apply returns_ret, Hend, Hinv.
  - apply returns_bind.
    eapply returns_conseq; [apply Hbody; exact Hinv|].
    intros [st'|st'] s' H; cbv beta iota in *.
    + apply IH; exact H.
    + apply returns_ret; exact H.
Qed.

Lemma same_position_refl (s : GameState) : same_position s s.
Proof. repeat split. Qed.

Lemma same_position_wf (s0 s : GameState) :
  wf_board (board s0) -> same_position s0 s -> wf_board (board s).
Proof. intros Hwf (Hb & _); rewrite Hb; exact Hwf. Qed.

Lemma range_down_S (n : nat) :
  Py.range_down (Z.of_nat (S n) - 1) = Z.of_nat n :: Py.range_down (Z.of_nat n - 1).
Proof.
  unfold Py.range_down.
  replace (Z.to_nat (Z.of_nat (S n) - 1 + 1)) with (S n) by lia.
  replace (Z.to_nat (Z.of_nat n - 1 + 1)) with n by lia.
  cbn [seq map]; f_equal; [lia|].
  rewrite <- seq_shift, map_map.
  apply map_ext; intros k; lia.
Qed.

Lemma range_down_0 : Py.range_down (Z.of_nat 0 - 1) = [].
Proof. reflexivity. Qed.

Lemma remove_In {A : Type} (eqb : A -> A -> bool) (x : A) (l : list A) :
  In x l -> eqb x x = true ->
  exists l', Py.remove eqb x l = Some l'
             /\ S (List.length l') = List.length l
             /\ forall P : A -> Prop, Forall P l -> Forall P l'.
Proof.
  intros Hin Hrefl; induction l as [|h t IH]; [destruct Hin|]; simpl.
  destruct (eqb h x) eqn:E.
  - exists t; split; [reflexivity|]; split; [reflexivity|].
    intros P HP; inversion HP; assumption.
  - destruct Hin as [->|Hin]; [congruence|].
    destruct (IH Hin) as (t' & -> & Hlen & HP).
    exists (h :: t'); split; [reflexivity|]; split; [simpl; lia|].
    intros P HPl; inversion HPl; subst; constructor; auto.
Qed.

Lemma ray_eqb_refl (x : Ray) : ray_eqb x x = true.
Proof. destruct x as [[[a b] c] d]; simpl; rewrite !Z.eqb_refl; reflexivity. Qed.

Lemma Move_eq_refl (m : Move) : Move_eq m m = true.
Proof. apply Z.eqb_refl. Qed.

Lemma new_Move_returns (st en : Square) (p e k : bool) (s : GameState)
    (Q : Move -> GameState -> Prop) :
  wf_board (board s) ->
  on_board (fst st) (snd st) = true -> on_board (fst en) (snd en) = true ->
  (forall m, (2 <= String.length (piece_moved m))%nat -> Q m s) ->
  returns (new_Move st en p e k) s Q.
Proof.
  intros Hwf Hst Hen HQ.
  destruct (wf_board_cell _ _ _ Hwf Hst) as (pm & Hpm & Hlen).
  destruct (wf_board_cell _ _ _ Hwf Hen) as (pc & Hpc & _).
  unfold new_Move; apply returns_bind, returns_self, returns_orraise.
  unfold Move_init; rewrite Hpm, Hpc.
  eexists; split; [reflexivity|].
  apply HQ; exact Hlen.
Qed.

Lemma moves_ok_app (ms : list Move) (m : Move) :
  moves_ok ms -> (2 <= String.length (piece_moved m))%nat -> moves_ok (ms ++ [m]).
Proof.
  intros H Hm; apply Forall_app; split; [exact H | constructor; auto].
Qed.

Lemma returns_loop_gen {X S : Type} (Inv : list X -> S -> GameState -> Prop)
    (Post : S -> GameState -> Prop) (xs : list X) (body : X -> S -> M (Ctl S))
    (st : S) (s : GameState) (Q : S -> GameState -> Prop) :
  (forall x rest st s, Inv (x :: rest) st s ->
     returns (body x st) s
       (fun c s' => match c with
                    | Continue st' => Inv rest st' s'
                    | Break st' => Post st' s'
                    end)) ->
  Inv xs st s ->
  (forall st' s', Inv [] st' s' -> Post st' s') ->
  (forall st' s', Post st' s' -> Q st' s') ->
  returns (for_loop xs body st) s Q.
Proof.
  intros Hbody Hinv Hend Hpost.
  apply returns_conseq with (Q := Post); [|exact Hpost].
  apply returns_for_loop_gen with (Inv := Inv); assumption.
Qed.

(** The detector, with the squares of the checks it reports. *)
Lemma search_for_pins_and_checks_scan (s : GameState) :
  wf_board (board s) ->
  returns search_for_pins_and_checks s
    (fun res s' => s' = s /\ Forall ray_on_board (snd res)).
Proof.
  intros Hwf; unfold search_for_pins_and_checks.
  msteps.
  apply returns_loop
    with (Inv := fun (sc : Scan) s' => s' = s /\ Forall ray_on_board (scan_checks sc)).
  - intros [j dir_j] sc s1 _ [-> Hsc]; cbn [fst snd].
    msteps.
    apply returns_loop
      with (Inv := fun (st : option Ray * Scan) s' =>
                     s' = s /\ Forall ray_on_board (scan_checks (snd st))).
    + intros d st s1 _ [-> Hst].
      msteps; cbn [ctl_state snd fst scan_checks];
        (split; [reflexivity|]);
        first [ assumption
              | apply Forall_app; split; [assumption | repeat constructor; assumption] ].
    + split; [reflexivity | exact Hsc].
    + intros res s1 [-> Hres]; msteps; split; [reflexivity | exact Hres].
  - split; [reflexivity | constructor].
  - intros sc s1 [-> Hsc]; msteps.
    apply returns_loop
      with (Inv := fun (sc : Scan) s' => s' = s /\ Forall ray_on_board (scan_checks sc)).
    + intros d st s1 _ [-> Hst].
      msteps; cbn [ctl_state snd fst scan_checks];
        (split; [reflexivity|]);
        first [ assumption
              | apply Forall_app; split; [assumption | repeat constructor; assumption] ].
    + split; [reflexivity | exact Hsc].
    + intros sc' s1 [-> Hsc']; msteps; split; [reflexivity | exact Hsc'].
Qed.

Lemma find_pin_returns (s0 : GameState) (r c : Z) (s : GameState) :
  same_position s0 s ->
  returns (find_pin r c) s (fun _ s' => same_position s0 s').
Proof.
  intros Hs; unfold find_pin.
  mstep. mstep.
  apply returns_loop_gen
    with (Inv := fun rest (_ : bool * option Square) s' =>
                   same_position s0 s'
                   /\ exists n, rest = Py.range_down (Z.of_nat n - 1)
                                /\ (n <= List.length (pins s'))%nat)
         (Post := fun (_ : bool * option Square) s' => same_position s0 s').
  - intros j rest st s1 (Hs1 & [|n] & Hrest & Hn);
      [rewrite range_down_0 in Hrest; discriminate|].
    rewrite range_down_S in Hrest; injection Hrest as -> ->.
    mstep. mstep. mstep.
    + destruct (getitem_in_range (pins s1) (Z.of_nat n)) as (p & Hget & Hin); [lia|].
      apply returns_orraise; exists p; split; [exact Hget|].
      destruct p as [[[pr pc] dr] dc].
      destruct ((pr =? r) && (pc =? c)).
      * destruct (remove_In ray_eqb _ _ Hin (ray_eqb_refl _)) as (ps' & Hrem & _).
        mstep; [apply returns_orraise; exists ps'; split; [exact Hrem|]].
        msteps; exact Hs1.
      * mstep; split; [exact Hs1|]. exists n; split; [reflexivity | lia].
  - split; [exact Hs|]. exists (List.length (pins s)); split; [|lia].
    f_equal; lia.
  - intros st s1 [H _]; exact H.
  - intros st s1 H; exact H.
Qed.

Lemma in_rows_on_board (b : Board) (r c : Z) :
  List.length b = 8%nat -> in_rows b r && in_rows b c = true -> on_board r c = true.
Proof.
  unfold in_rows, on_board; intros Hl H.
  rewrite Hl in H; change (Z.of_nat 8) with 8 in H; lia.
Qed.

Lemma search_for_attacks_returns (r c : Z) (enemy_c : ascii) (s : GameState) :
  wf_board (board s) ->
  returns (search_for_attacks r c enemy_c) s (fun _ s' => s' = s).
Proof.
  intros Hwf; pose proof (proj1 Hwf) as Hlen.
  unfold search_for_attacks.
  mstep. mstep. mstep.
  apply returns_loop with (Inv := fun (_ : bool) s' => s' = s).
  - intros [j dir_j] found s1 _ ->; cbn [fst snd].
    mstep.
    apply returns_loop with (Inv := fun (_ : bool) s' => s' = s).
    + intros d hit s1 _ ->.
      destruct (in_rows (board s) (r + fst dir_j * d)
                && in_rows (board s) (c + snd dir_j * d)) eqn:E;
        [apply (in_rows_on_board _ _ _ Hlen) in E|];
        msteps; reflexivity.
    + reflexivity.
    + intros hit s1 ->; msteps; reflexivity.
  - reflexivity.
  - intros found s1 ->.
    destruct found; [mstep; reflexivity|].
    apply returns_loop with (Inv := fun (_ : bool) s' => s' = s).
    + intros d hit s1 _ ->.
      destruct (in_rows (board s) (r + fst d)) eqn:Er; [|mstep; reflexivity].
      assert (Hr : 0 <= r + fst d < 8) by (unfold in_rows in Er; rewrite Hlen in Er; change (Z.of_nat 8) with 8 in Er; lia).
      destruct (wf_board_row _ _ Hwf Hr) as (row & Hrow & Hrlen & _).
      mstep; [apply returns_orraise; exists row; split; [exact Hrow|]].
      rewrite Hrlen.
      destruct ((0 <=? c + snd d) && (c + snd d <? Z.of_nat 8)) eqn:Ec;
        [|mstep; reflexivity].
      change (Z.of_nat 8) with 8 in Ec.
      assert (Hon : on_board (r + fst d) (c + snd d) = true)
        by (unfold on_board; lia).
      msteps; reflexivity.
    + reflexivity.
    + intros hit s1 ->; reflexivity.
Qed.

(** Steps of the move generators. *)
Ltac gstep :=
  lazymatch goal with
  | |- returns (new_Move _ _ _ _ _) _ _ =>
      apply new_Move_returns;
      [ cbn [board with_white_king_location with_black_king_location]; assumption
      | cbn [fst snd]; assumption
      | cbn [fst snd]; assumption
      | intros ? ? ]
  | |- returns search_for_pins_and_checks _ _ =>
      eapply returns_conseq;
      [ apply search_for_pins_and_checks_scan;
        cbn [board with_white_king_location with_black_king_location]; assumption
      | intros ? ? [-> ?] ]
  | |- returns (search_for_attacks _ _ _) _ _ =>
      eapply returns_conseq;
      [ apply search_for_attacks_returns; assumption | intros ? ? -> ]
  | _ => mstep
  end; cbv beta zeta.

Ltac moves_done :=
  cbn [ctl_state];
  (split; [first [reflexivity | assumption]|]);
  first [ assumption | apply moves_ok_app; assumption ].

Lemma get_sliding_moves_returns (s0 : GameState) (dirs : list Square) (r c : Z)
    (moves : list Move) (s : GameState) :
  wf_board (board s0) -> same_position s0 s ->
  on_board r c = true -> moves_ok moves ->
  returns (get_sliding_moves dirs r c moves) s
    (fun ms s' => same_position s0 s' /\ moves_ok ms).
Proof.
  intros Hwf0 Hs Hon Hok; unfold get_sliding_moves.
  mstep.
  eapply returns_conseq; [apply find_pin_returns; exact Hs|].
  intros pin s1 Hs1; cbv beta zeta.
  pose proof (same_position_wf _ _ Hwf0 Hs1) as Hwf1.
  mstep. mstep.
  apply returns_loop with (Inv := fun ms s' => s' = s1 /\ moves_ok ms).
  - intros d ms s2 _ [-> Hms].
    mstep.
    apply returns_loop with (Inv := fun ms s' => s' = s1 /\ moves_ok ms).
    + intros k ms' s2 _ [-> Hms'].
      repeat gstep; moves_done.
    + split; [reflexivity | exact Hms].
    + intros ms' s2 [-> Hms']; mstep; moves_done.
  - split; [reflexivity | exact Hok].
  - intros ms s2 [-> Hms]; split; assumption.
Qed.

Lemma get_knight_moves_returns (s0 : GameState) (r c : Z)
    (moves : list Move) (s : GameState) :
  wf_board (board s0) -> same_position s0 s ->
  on_board r c = true -> moves_ok moves ->
  returns (get_knight_moves r c moves) s
    (fun ms s' => same_position s0 s' /\ moves_ok ms).
Proof.
  intros Hwf0 Hs Hon Hok; unfold get_knight_moves.
  mstep.
  eapply returns_conseq; [apply find_pin_returns; exact Hs|].
  intros pin s1 Hs1; cbv beta zeta.
  pose proof (same_position_wf _ _ Hwf0 Hs1) as Hwf1.
  mstep. mstep.
  apply returns_loop with (Inv := fun ms s' => s' = s1 /\ moves_ok ms).
  - intros d ms s2 _ [-> Hms].
    repeat gstep; moves_done.
  - split; [reflexivity | exact Hok].
  - intros ms s2 [-> Hms]; split; assumption.
Qed.

Lemma get_castling_moves_returns (r c : Z) (moves : list Move) (s : GameState) :
  wf_board (board s) ->
  current_castling_rights s = no_rights ->
  returns (get_castling_moves r c moves) s (fun ms s' => s' = s /\ ms = moves).
Proof.
  intros Hwf Hr; unfold get_castling_moves.
  destruct (white_to_move s) eqn:Ew.
  all: repeat (first [ rewrite Hr | rewrite Ew
                     | progress cbn [no_rights wks bks wqs bqs andb orb negb]
                     | gstep ]).
  all: split; reflexivity.
Qed.

Lemma get_king_moves_returns (s0 : GameState) (r c : Z)
    (moves : list Move) (s : GameState) :
  wf_board (board s0) -> current_castling_rights s0 = no_rights ->
  same_position s0 s ->
  on_board r c = true -> moves_ok moves ->
  returns (get_king_moves r c moves) s
    (fun ms s' => same_position s0 s' /\ moves_ok ms).
Proof.
  intros Hwf0 Hr0 Hs Hon Hok; unfold get_king_moves.
  mstep. mstep. mstep.
  apply returns_loop with (Inv := fun ms s' => same_position s0 s' /\ moves_ok ms).
  - intros d ms s1 _ [Hs1 Hms].
    pose proof (same_position_wf _ _ Hwf0 Hs1) as Hwf1.
    assert (Hw : white_to_move s1 = white_to_move s) by
      (destruct Hs as (_ & -> & _), Hs1 as (_ & -> & _); reflexivity).
    repeat gstep; moves_done.
  - split; assumption.
  - intros ms s1 [Hs1 Hms]; cbv beta.
    pose proof (same_position_wf _ _ Hwf0 Hs1) as Hwf1.
    eapply returns_conseq.
    + apply get_castling_moves_returns; [exact Hwf1|].
      destruct Hs1 as (_ & _ & -> & _); exact Hr0.
    + intros ms' s2 [-> ->]; split; assumption.
Qed.

Lemma classified_draw_kinds (mat : list (Square * string)) :
  classified_draw mat = true ->
  forall sq p, In (sq, p) mat -> has_kind "N" p = true \/ has_kind "B" p = true.
Proof.
  destruct mat as [|[a p] [|[b q] [|x rest]]]; simpl; intros H sq t Hin.
  - destruct Hin.
  - destruct Hin as [E|[]]; injection E as _ <-.
    apply orb_true_iff in H; exact H.
  - assert (Hboth : (has_kind "N" p = true \/ has_kind "B" p = true)
                    /\ (has_kind "N" q = true \/ has_kind "B" q = true)).
    { destruct ((String.eqb p "bB" && String.eqb q "bB")
                || (String.eqb p "wB" && String.eqb q "wB")) eqn:E.
      - apply orb_true_iff in E as [E|E]; apply andb_true_iff in E as [E1 E2];
          apply String.eqb_eq in E1, E2; subst; split; right; reflexivity.
      - apply orb_true_iff in H as [H|H]; [apply orb_true_iff in H as [H|H]|].
        + apply andb_true_iff in H as [H _]; apply andb_true_iff in H as [Hp Hq].
          rewrite Hp, Hq; auto.
        + apply andb_true_iff in H as [E1 E2];
            apply String.eqb_eq in E1, E2; subst; split; left; reflexivity.
        + apply andb_true_iff in H as [E1 E2];
            apply String.eqb_eq in E1, E2; subst; split; left; reflexivity. }
    destruct Hin as [E|[E|[]]]; injection E as _ <-; tauto.
  - discriminate.
Qed.

(** On drawn material every piece of a side is a king, a knight or a
    bishop. *)
Lemma drawn_piece_kind (b : Board) (r c : Z) (p : string) (col k : ascii) :
  wf_board b -> classified_draw (material b) = true ->
  on_board r c = true -> cell b r c = Some p ->
  Py.char p 0 = Some col -> (Ascii.eqb col "w" || Ascii.eqb col "b") = true ->
  Py.char p 1 = Some k ->
  k = "K"%char \/ k = "N"%char \/ k = "B"%char.
Proof.
  intros Hwf Hdraw Hon Hp Hcol Hwb Hk.
  destruct (Ascii.eqb k "K") eqn:EK; [apply Ascii.eqb_eq in EK; auto|].
  right.
  assert (Hmat : is_material p = true).
  { unfold is_material, has_kind; rewrite Hk, EK; simpl.
    destruct (String.eqb p "--") eqn:E; [|reflexivity].
    apply String.eqb_eq in E; subst p.
    injection Hcol as <-; discriminate. }
  destruct (classified_draw_kinds _ Hdraw _ _ (In_material _ _ _ _ Hon Hp Hmat)) as [H|H];
    unfold has_kind in H; rewrite Hk in H; apply Ascii.eqb_eq in H; auto.
Qed.

Section Drawn.

Variable s0 : GameState.
Hypothesis Hwf0 : wf_board (board s0).
Hypothesis Hrights0 : current_castling_rights s0 = no_rights.
Hypothesis Hdraw0 : classified_draw (material (board s0)) = true.

Lemma get_all_possible_moves_returns (s : GameState) :
  same_position s0 s ->
  returns get_all_possible_moves s
    (fun ms s' => same_position s0 s' /\ moves_ok ms).
Proof.
  intros Hs; unfold get_all_possible_moves.
  pose proof (same_position_wf _ _ Hwf0 Hs) as Hwf.
  mstep. mstep. rewrite (proj1 Hwf).
  apply returns_loop with (Inv := fun ms s' => same_position s0 s' /\ moves_ok ms).
  - intros r ms s1 Hr [Hs1 Hms].
    pose proof (same_position_wf _ _ Hwf0 Hs1) as Hwf1.
    apply In_range in Hr.
    destruct (wf_board_row _ _ Hwf1 Hr) as (row & Hrow & Hrl & _).
    mstep. mstep. mstep.
    { apply returns_orraise; exists row; split; [exact Hrow|]. 
      mstep. rewrite Hrl.
      apply returns_loop
        with (Inv := fun ms s' => same_position s0 s' /\ moves_ok ms).
      - intros c ms' s2 Hc [Hs2 Hms'].
        pose proof (same_position_wf _ _ Hwf0 Hs2) as Hwf2.
        apply In_range in Hc.
        assert (Hon : on_board r c = true) by (unfold on_board; lia).
        mstep. mstep. mstep. mstep. mstep. mstep.
        destruct ((white_to_move s2 && Ascii.eqb a "w")
                  || (negb (white_to_move s2) && Ascii.eqb a "b")) eqn:Ecol;
          [|mstep; split; assumption].
        mstep. mstep. mstep. mstep.
        assert (p0 = p) by congruence; subst p0.
        assert (Hwb : (Ascii.eqb a "w" || Ascii.eqb a "b") = true)
          by (destruct (white_to_move s2), (Ascii.eqb a "w"), (Ascii.eqb a "b");
              simpl in *; congruence).
        assert (Hd2 : classified_draw (material (board s2)) = true)
          by (rewrite (proj1 Hs2); exact Hdraw0).
        mstep.
        match goal with
        | Hc0 : Py.char p 0 = Some _, Hc1 : Py.char p 1 = Some _,
          Hcell : cell _ r c = Some p |- _ =>
            destruct (drawn_piece_kind _ _ _ _ _ _ Hwf2 Hd2 Hon Hcell Hc0 Hwb Hc1)
              as [ -> | [ -> | -> ] ]
        end;
          (apply returns_orraise; eexists; split; [reflexivity|]);
          mstep;
          (eapply returns_conseq;
           [ first [ apply (get_king_moves_returns s0)
                   | apply (get_knight_moves_returns s0)
                   | apply (get_sliding_moves_returns s0) ]; assumption
           | intros ms'' s3 [Hs3 Hms'']; mstep; split; assumption ]).
      - split; assumption.
      - intros ms' s2 [Hs2 Hms']; mstep; split; assumption. }
  - split; [exact Hs | constructor].
  - intros ms s1 H; exact H.
Qed.

Lemma single_check_moves_returns (king_r king_c : Z) (s : GameState) :
  same_position s0 s ->
  List.length (checks s0) = 1%nat -> Forall ray_on_board (checks s0) ->
  returns (single_check_moves king_r king_c) s
    (fun _ s' => same_position s0 s').
Proof.
  intros Hs Hone Hrays; unfold single_check_moves.
  mstep.
  eapply returns_conseq; [apply get_all_possible_moves_returns; exact Hs|].
  intros moves s1 [Hs1 Hms]; cbv beta.
  pose proof (same_position_wf _ _ Hwf0 Hs1) as Hwf1.
  assert (Hcs : checks s1 = checks s0) by (destruct Hs1 as (_ & _ & _ & H & _); exact H).
  mstep. mstep. rewrite Hcs.
  destruct (checks s0) as [|[[[check_r check_c] d0] d1] [|x rest]] eqn:Echecks;
    try discriminate.
  inversion Hrays as [|? ? Hray _]; subst; simpl in Hray.
  mstep.
  { apply returns_orraise; eexists; split; [reflexivity|].
    cbv beta iota zeta.
    mstep. mstep. mstep. mstep. mstep.
    { apply returns_conseq with (Q := fun (_ : list Square) s' => s' = s1).
      - destruct (Ascii.eqb a "N"); [mstep; reflexivity|].
        apply returns_loop with (Inv := fun (_ : list Square) s' => s' = s1).
        + intros d vs s2 _ ->; msteps; reflexivity.
        + reflexivity.
        + intros vs s2 ->; reflexivity.
      - intros valid_squares s2 ->.
        apply returns_loop_gen
          with (Inv := fun rest ms s' =>
                         s' = s1 /\ moves_ok ms
                         /\ exists n, rest = Py.range_down (Z.of_nat n - 1)
                                      /\ (n <= List.length ms)%nat)
               (Post := fun (_ : list Move) s' => s' = s1).
        + intros j rest ms s2 (-> & Hok & [|n] & Hrest & Hn);
            [rewrite range_down_0 in Hrest; discriminate|].
          rewrite range_down_S in Hrest; injection Hrest as -> ->.
          destruct (getitem_in_range ms (Z.of_nat n)) as (m & Hget & Hin); [lia|].
          mstep.
          { apply returns_orraise; exists m; split; [exact Hget|].
            assert (Hm : (2 <= String.length (piece_moved m))%nat)
              by (unfold moves_ok in Hok; rewrite Forall_forall in Hok; auto).
            mstep. mstep.
            destruct (negb (Ascii.eqb a0 "K"));
              [|mstep; repeat split; [assumption | exists n; split; [reflexivity | lia]]].
            destruct (negb (Py.contains square_eqb (end_r m, end_c m) valid_squares));
              [|mstep; repeat split; [assumption | exists n; split; [reflexivity | lia]]].
            destruct (remove_In Move_eq _ _ Hin (Move_eq_refl _))
              as (ms' & Hrem & Hlen & HP).
            mstep.
            { apply returns_orraise; exists ms'; split; [exact Hrem|].
              mstep; repeat split; [apply HP; exact Hok|].
              exists n; split; [reflexivity | lia]. } }
        + repeat split; [exact Hms|].
          exists (List.length moves); split; [reflexivity | lia].
        + intros ms s2 (-> & _); reflexivity.
        + intros ms s2 ->; exact Hs1. } }
Qed.

Lemma assemble_moves_returns (king_r king_c : Z) (s : GameState) :
  same_position s0 s ->
  on_board king_r king_c = true ->
  Forall ray_on_board (checks s0) ->
  returns (assemble_moves king_r king_c) s (fun _ s' => same_position s0 s').
Proof.
  intros Hs Hking Hrays; unfold assemble_moves.
  assert (Hcs : checks s = checks s0) by (destruct Hs as (_ & _ & _ & H & _); exact H).
  mstep. mstep.
  destruct (current_player_is_in_check s).
  - mstep. mstep. rewrite Hcs.
    destruct (Z.of_nat (List.length (checks s0)) =? 1) eqn:E.
    + apply single_check_moves_returns; [exact Hs | lia | exact Hrays].
    + eapply returns_conseq.
      * apply (get_king_moves_returns s0); try assumption. constructor.
      * intros ms s1 [H _]; exact H.
  - eapply returns_conseq; [apply get_all_possible_moves_returns; exact Hs|].
    intros ms s1 [H _]; exact H.
Qed.

End Drawn.

(** *** Methods that print *)

Lemma yields_ebind {A B : Type} (e : Eff A) (f : A -> Eff B) (a : A) (b : B) :
  yields e a -> yields (f a) b -> yields (ebind e f) b.
Proof.
  intros He Hf; induction He as [a|l k a He IH]; simpl.
  - exact Hf.
  - constructor; apply IH; exact Hf.
Qed.

Lemma finishes_bind {A B : Type} (m : M A) (f : A -> M B) (s : GameState)
    (Q : B -> GameState -> Prop) :
  finishes m s (fun a s' => finishes (f a) s' Q) -> finishes (bind m f) s Q.
Proof.
  intros (a & s' & Hm & b & s'' & Hf & HQ).
  exists b, s''; split; [|exact HQ].
  unfold bind; eapply yields_ebind; [exact Hm | exact Hf].
Qed.

Lemma returns_finishes {A : Type} (m : M A) (s : GameState)
    (Q : A -> GameState -> Prop) :
  returns m s Q -> finishes m s Q.
Proof.
  intros (a & s' & Hm & HQ); exists a, s'; split; [|exact HQ].
  rewrite Hm; constructor.
Qed.

Lemma finishes_print (line : string) (s : GameState)
    (Q : unit -> GameState -> Prop) :
  Q tt s -> finishes (print line) s Q.
Proof.
  intros HQ; exists tt, s; split; [|exact HQ].
  unfold print; repeat constructor.
Qed.

Lemma search_for_material_stalemate_drawn (s : GameState) :
  wf_board (board s) -> classified_draw (material (board s)) = true ->
  returns search_for_material_stalemate s (fun d s' => d = true /\ s' = s).
Proof.
  intros Hwf Hdraw; exists true, s; split; [|split; reflexivity].
  rewrite (search_for_material_stalemate_run s Hwf), Hdraw; reflexivity.
Qed.

Lemma no_rook_on_drawn (b : Board) (r c : Z) (p : string) :
  wf_board b -> classified_draw (material b) = true ->
  on_board r c = true -> cell b r c = Some p -> has_kind "R" p = true -> False.
Proof.
  intros Hwf Hdraw Hon Hp HR.
  assert (Hk : exists k, Py.char p 1 = Some k /\ k = "R"%char).
  { unfold has_kind in HR; destruct (Py.char p 1) as [k|]; [|discriminate].
    exists k; split; [reflexivity | apply Ascii.eqb_eq; exact HR]. }
  destruct Hk as (k & Hk & ->).
  assert (Hmat : is_material p = true).
  { unfold is_material, has_kind; rewrite Hk; simpl.
    destruct (String.eqb p "--") eqn:E; [|reflexivity].
    apply String.eqb_eq in E; subst p; discriminate. }
  destruct (classified_draw_kinds _ Hdraw _ _ (In_material _ _ _ _ Hon Hp Hmat)) as [H|H];
    unfold has_kind in H; rewrite Hk in H; discriminate.
Qed.

Lemma drawn_no_rights (s : GameState) :
  wf_state s -> classified_draw (material (board s)) = true ->
  current_castling_rights s = no_rights.
Proof.
  intros (Hwf & _ & _ & H1 & H2 & H3 & H4) Hdraw.
  destruct (current_castling_rights s) as [a b c d]; simpl in *.
  unfold no_rights.
  destruct a; [exfalso; eapply (no_rook_on_drawn _ 7 7); eauto|].
  destruct b; [exfalso; eapply (no_rook_on_drawn _ 0 7); eauto|].
  destruct c; [exfalso; eapply (no_rook_on_drawn _ 7 0); eauto|].
  destruct d; [exfalso; eapply (no_rook_on_drawn _ 0 0); eauto|].
  reflexivity.
Qed.

(** One step of a method that may print. *)
Ltac fstep :=
  lazymatch goal with
  | |- finishes (bind _ _) _ _ => apply finishes_bind
  | |- finishes (print _) _ _ => apply finishes_print
  | |- finishes (if ?c then _ else _) _ _ => destruct c eqn:?
  | |- finishes _ _ _ => apply returns_finishes; mstep
  end; cbv beta zeta.

(** On drawn material [get_all_valid_moves] returns the empty list and sets
    the stalemate flag. *)
Lemma get_all_valid_moves_drawn (s : GameState) :
  wf_state s -> classified_draw (material (board s)) = true ->
  finishes get_all_valid_moves s
    (fun ms s' => ms = [] /\ stalemate s' = true /\ board s' = board s).
Proof.
  intros Hst Hdraw.
  pose proof (drawn_no_rights s Hst Hdraw) as Hrights.
  destruct Hst as (Hwf & Hwk & Hbk & _).
  unfold get_all_valid_moves.
  fstep. apply returns_finishes.
  eapply returns_conseq; [apply search_for_pins_and_checks_scan; exact Hwf|].
  intros [[in_check ps] cs] s' [-> Hrays]; cbn [fst snd] in *.
  repeat (lazymatch goal with
          | |- finishes (bind (assemble_moves _ _) _) _ _ => fail
          | |- _ => fstep
          end).
  fstep.
  set (s1 := with_check_data in_check ps cs s).
  apply returns_finishes.
  eapply returns_conseq.
  { apply (assemble_moves_returns s1); try assumption.
    - apply same_position_refl.
    - subst s1; cbn; destruct (white_to_move s); assumption. }
  intros ms s2 (Hb & _); cbv beta.
  assert (Hb2 : board s2 = board s) by (rewrite Hb; reflexivity).
  assert (Hfinal : forall s3, board s3 = board s ->
            finishes
              (draw <- search_for_material_stalemate ;;
               assign (with_stalemate draw) ;;;
               draw0 <- self stalemate ;;
               (if draw0 then print (newline ++ "1/2 - 1/2")%string ;;; ret []
                else ret ms)) s3
              (fun ms' s' => ms' = [] /\ stalemate s' = true /\ board s' = board s)).
  { intros s3 Hb3.
    fstep. apply returns_finishes.
    eapply returns_conseq.
    { apply search_for_material_stalemate_drawn; rewrite Hb3; assumption. }
    intros d s4 [-> ->]; cbv beta.
    do 4 fstep. cbn [stalemate with_stalemate].
    do 3 fstep. repeat split. exact Hb3. }
  fstep.
  repeat (lazymatch goal with
          | |- finishes (bind search_for_material_stalemate _) _ _ => fail
          | |- _ => fstep
          end).
  all: apply Hfinal; cbn [board with_stalemate with_checkmate]; exact Hb2.
Qed.

(** C5 (as amended). On every well-formed position the material classifier
    returns, without touching the state, whether the non-king material is:
    empty; a single knight or bishop; exactly two bishops "wB", "wB" or
    "bB", "bB" on squares of one colour; exactly two bishops, one white and
    one black; exactly two knights "wN", "wN" or "bN", "bN" -- and nothing
    with three pieces or more.  Whenever that is the case
    [get_all_valid_moves] returns the empty list and sets the stalemate
    flag. *)
Theorem material_draw_classified :
  forall s : GameState,
    wf_state s ->
    search_for_material_stalemate s
      = Ret (classified_draw (material (board s)), s)
    /\ (classified_draw (material (board s)) = true ->
        finishes get_all_valid_moves s
          (fun ms s' => ms = [] /\ stalemate s' = true)).
Proof.
  intros s Hst; split.
  - apply search_for_material_stalemate_run, Hst.
  - intros Hdraw.
    destruct (get_all_valid_moves_drawn s Hst Hdraw) as (ms & s' & Hy & H1 & H2 & _).
    exists ms, s'; auto.
Qed.

Lemma wf_state_bishop_and_kings : wf_state bishop_and_kings.
Proof.
  split; [wf_board_tac|].
  split; [reflexivity|]. split; [reflexivity|].
  repeat split; intros H; discriminate H.
Qed.

Lemma material_draw_classified_witness :
  wf_state bishop_and_kings
  /\ search_for_material_stalemate bishop_and_kings
       = Ret (classified_draw (material (board bishop_and_kings)), bishop_and_kings)
  /\ (classified_draw (material (board bishop_and_kings)) = true ->
      finishes get_all_valid_moves bishop_and_kings
        (fun ms s' => ms = [] /\ stalemate s' = true)).
Proof.
  split; [exact wf_state_bishop_and_kings|].
  apply (material_draw_classified bishop_and_kings); exact wf_state_bishop_and_kings.
Defined.

(** With king and bishop against king the material is drawn although the
    side to move has moves: the list is emptied all the same. *)
Example bishop_and_kings_emptied :
  classified_draw (material (board bishop_and_kings)) = true
  /\ (exists ms s', assemble_moves 7 4 bishop_and_kings = Ret (ms, s')
                    /\ List.length ms = 11%nat)
  /\ exists s', get_all_valid_moves bishop_and_kings
                = Print (newline ++ "1/2 - 1/2") (Ret ([], s'))
                /\ stalemate s' = true.
Proof.
  split; [vm_compute; reflexivity|].
  split.
  - eexists; eexists; split; vm_compute; reflexivity.
  - eexists; split; vm_compute; reflexivity.
Qed.

(** C5 (as stated, refuted). With two white bishops and one black bishop
    and no other piece besides the kings the stated condition holds (bishops
    only, of both colours), yet the classifier answers [False] and
    [get_all_valid_moves] returns moves and leaves the stalemate flag
    unset. *)
Lemma three_bishops_not_drawn :
  claimed_draw (material (board three_bishops)) = true
  /\ search_for_material_stalemate three_bishops = Ret (false, three_bishops)
  /\ exists ms s',
       get_all_valid_moves three_bishops = Ret (ms, s')
       /\ List.length ms = 18%nat
       /\ stalemate s' = false.
Proof.
  split; [vm_compute; reflexivity|].
  split; [vm_compute; reflexivity|].
  eexists; eexists; split; [vm_compute; reflexivity|].
  split; vm_compute; reflexivity.
Qed.

(** * Further properties of the engine *)

(** ** Reasoning about the runs that end *)

Lemma answer_ebind {A B : Type} (reply : string) (e : Eff A) (f : A -> Eff B) :
  answer reply (ebind e f)
  = match answer reply e with
    | Some a => answer reply (f a)
    | None => None
    end.
Proof.
  induction e as [a|x|l k IH|p k IH]; simpl; auto.
Qed.

Lemma yields_answer {A : Type} (reply : string) (e : Eff A) (a : A) :
  yields e a -> answer reply e = Some a.
Proof. induction 1; simpl; auto. Qed.

Lemma post_bind {A B : Type} (reply : string) (m : M A) (f : A -> M B)
    (s : GameState) (Q : B -> GameState -> Prop) :
  post reply m s (fun a s' => post reply (f a) s' Q) -> post reply (bind m f) s Q.
Proof.
  intros H b s'' Hb; unfold bind in Hb; rewrite answer_ebind in Hb.
  destruct (answer reply (m s)) as [[a s']|] eqn:E; [|discriminate].
  exact (H a s' E b s'' Hb).
Qed.

Lemma post_conseq {A : Type} (reply : string) (m : M A) (s : GameState)
    (Q Q' : A -> GameState -> Prop) :
  post reply m s Q -> (forall a s', Q a s' -> Q' a s') -> post reply m s Q'.
Proof. intros H Himp a s' Ha; apply Himp, H, Ha. Qed.

Lemma post_ret {A : Type} (reply : string) (a : A) (s : GameState)
    (Q : A -> GameState -> Prop) :
  Q a s -> post reply (ret a) s Q.
Proof. intros H a' s' E; injection E as <- <-; exact H. Qed.

Lemma post_self {A : Type} (reply : string) (f : GameState -> A) (s : GameState)
    (Q : A -> GameState -> Prop) :
  Q (f s) s -> post reply (self f) s Q.
Proof. intros H a' s' E; injection E as <- <-; exact H. Qed.

Lemma post_assign (reply : string) (f : GameState -> GameState) (s : GameState)
    (Q : unit -> GameState -> Prop) :
  Q tt (f s) -> post reply (assign f) s Q.
Proof. intros H a' s' E; injection E as <- <-; exact H. Qed.

Lemma post_print (reply line : string) (s : GameState)
    (Q : unit -> GameState -> Prop) :
  Q tt s -> post reply (print line) s Q.
Proof. intros H a' s' E; injection E as <- <-; exact H. Qed.

Lemma post_input (reply prompt : string) (s : GameState)
    (Q : string -> GameState -> Prop) :
  Q reply s -> post reply (input prompt) s Q.
Proof. intros H a' s' E; injection E as <- <-; exact H. Qed.

Lemma post_raise {A : Type} (reply : string) (e : exn) (s : GameState)
    (Q : A -> GameState -> Prop) :
  post reply (raise e) s Q.
Proof. intros a' s' E; discriminate E. Qed.

Lemma post_orraise {A : Type} (reply : string) (e : exn) (o : option A)
    (s : GameState) (Q : A -> GameState -> Prop) :
  (forall a, o = Some a -> Q a s) -> post reply (orraise e o) s Q.
Proof.
  intros H; destruct o as [a|]; [apply post_ret; auto | apply post_raise].
Qed.

Lemma post_for_loop_gen {X S : Type} (reply : string)
    (Inv : list X -> S -> GameState -> Prop) (Post : S -> GameState -> Prop)
    (body : X -> S -> M (Ctl S)) :
  (forall x rest st s, Inv (x :: rest) st s ->
     post reply (body x st) s
       (fun c s' => match c with
                    | Continue st' => Inv rest st' s'
                    | Break st' => Post st' s'
                    end)) ->
  (forall st s, Inv [] st s -> Post st s) ->
  forall xs st s, Inv xs st s -> post reply (for_loop xs body st) s Post.
Proof.
  intros Hbody Hend xs; induction xs as [|x xs IH]; intros st s Hinv; simpl.
  - apply post_ret, Hend, Hinv.
  - apply post_bind.
    eapply post_conseq; [apply Hbody; exact Hinv|].
    intros [st'|st'] s' H; cbv beta iota in *.
    + apply IH; exact H.
    + apply post_ret; exact H.
Qed.

Lemma post_loop {X S : Type} (reply : string) (Inv : S -> GameState -> Prop)
    (xs : list X) (body : X -> S -> M (Ctl S)) (st : S) (s : GameState)
    (Q : S -> GameState -> Prop) :
  (forall x st s, In x xs -> Inv st s ->
     post reply (body x st) s (fun c s' => Inv (ctl_state c) s')) ->
  Inv st s ->
  (forall st' s', Inv st' s' -> Q st' s') ->
  post reply (for_loop xs body st) s Q.
Proof.
  intros Hbody Hinv Hpost.
  apply post_conseq with (Q := Inv); [|exact Hpost].
  apply post_for_loop_gen
    with (Inv := fun rest st s => incl rest xs /\ Inv st s).
  - intros x rest st' s' [Hincl Hi].
    eapply post_conseq; [apply Hbody; [apply Hincl; left; reflexivity | exact Hi]|].
    intros [st''|st''] s'' H; cbv beta iota in *; [|exact H].
    split; [|exact H].
    intros y Hy; apply Hincl; right; exact Hy.
  - intros st' s' [_ Hi]; exact Hi.
  - split; [apply incl_refl | exact Hinv].
Qed.

Lemma returns_post {A : Type} (reply : string) (m : M A) (s : GameState)
    (Q : A -> GameState -> Prop) :
  returns m s Q -> post reply m s Q.
Proof.
  intros (a & s' & Hm & HQ) a' s'' E; rewrite Hm in E.
  injection E as <- <-; exact HQ.
Qed.

Lemma post_board_at (reply : string) (r c : Z) (s : GameState)
    (Q : string -> GameState -> Prop) :
  (forall p, cell (board s) r c = Some p -> Q p s) ->
  post reply (board_at r c) s Q.
Proof.
  intros H; unfold board_at.
  apply post_bind, post_self, post_orraise; exact H.
Qed.

Lemma post_board_set (reply : string) (r c : Z) (v : string) (s : GameState)
    (Q : unit -> GameState -> Prop) :
  (forall b', set_cell (board s) r c v = Some b' -> Q tt (with_board b' s)) ->
  post reply (board_set r c v) s Q.
Proof.
  intros H; unfold board_set.
  apply post_bind, post_self, post_bind, post_orraise.
  intros b' Hb; apply post_assign, H, Hb.
Qed.

Lemma post_char_at (reply : string) (p : string) (i : nat) (s : GameState)
    (Q : ascii -> GameState -> Prop) :
  (forall a, Py.char p i = Some a -> Q a s) ->
  post reply (char_at p i) s Q.
Proof. intros H; unfold char_at; apply post_orraise; exact H. Qed.

Lemma post_new_Move (reply : string) (st en : Square) (p e k : bool)
    (s : GameState) (Q : Move -> GameState -> Prop) :
  (forall m, Move_init st en (board s) p e k = Some m -> Q m s) ->
  post reply (new_Move st en p e k) s Q.
Proof.
  intros H; unfold new_Move.
  apply post_bind, post_self, post_orraise; exact H.
Qed.

(** One step through a method, for the runs that end. *)
Ltac pstep :=
  lazymatch goal with
  | |- post _ (bind _ _) _ _ => apply post_bind
  | |- post _ (ret _) _ _ => apply post_ret
  | |- post _ (self _) _ _ => apply post_self
  | |- post _ (assign _) _ _ => apply post_assign
  | |- post _ (print _) _ _ => apply post_print
  | |- post _ (input _) _ _ => apply post_input
  | |- post _ (raise _) _ _ => apply post_raise
  | |- post _ (orraise _ _) _ _ => apply post_orraise; intros ? ?
  | |- post _ (when _ _) _ _ => unfold when
  | |- post _ (board_at _ _) _ _ => apply post_board_at; intros ? ?
  | |- post _ (board_set _ _ _) _ _ => apply post_board_set; intros ? ?
  | |- post _ (char_at _ _) _ _ => apply post_char_at; intros ? ?
  | |- post _ (new_Move _ _ _ _ _) _ _ => apply post_new_Move; intros ? ?
  | |- post _ (if ?c then _ else _) _ _ => destruct c eqn:?
  | |- post _ (match ?c with _ => _ end) _ _ => destruct c eqn:?
  end; cbv beta zeta.

(** ** Queries keep the position *)

Lemma same_game_refl (s : GameState) : same_game s s.
Proof. repeat split. Qed.

Lemma keeps_bind {A B : Type} (m : M A) (f : A -> M B) :
  keeps m -> (forall a, keeps (f a)) -> keeps (bind m f).
Proof.
  intros Hm Hf reply s0 s Hs; apply post_bind.
  eapply post_conseq; [apply Hm; exact Hs|].
  intros a s' Hs'; apply Hf; exact Hs'.
Qed.

Lemma keeps_ret {A : Type} (a : A) : keeps (ret a).
Proof. intros reply s0 s Hs; apply post_ret; exact Hs. Qed.

Lemma keeps_self {A : Type} (f : GameState -> A) : keeps (self f).
Proof. intros reply s0 s Hs; apply post_self; exact Hs. Qed.

Lemma keeps_print (line : string) : keeps (print line).
Proof. intros reply s0 s Hs; apply post_print; exact Hs. Qed.

Lemma keeps_orraise {A : Type} (e : exn) (o : option A) : keeps (orraise e o).
Proof. intros reply s0 s Hs; apply post_orraise; intros; exact Hs. Qed.

Lemma keeps_assign (f : GameState -> GameState) :
  (forall s0 s, same_game s0 s -> same_game s0 (f s)) -> keeps (assign f).
Proof. intros H reply s0 s Hs; apply post_assign, H, Hs. Qed.

Lemma keeps_for_loop {X S : Type} (xs : list X) (body : X -> S -> M (Ctl S)) (st : S) :
  (forall x st, keeps (body x st)) -> keeps (for_loop xs body st).
Proof.
  intros Hbody reply s0 s Hs.
  apply post_loop with (Inv := fun (_ : S) s' => same_game s0 s').
  - intros x st' s' _ Hs'; eapply post_conseq; [apply Hbody; exact Hs'|].
    intros c s'' H; exact H.
  - exact Hs.
  - intros st' s' H; exact H.
Qed.

Lemma keeps_comprehension {X Y : Type} (f : X -> M Y) (xs : list X) :
  (forall x, keeps (f x)) -> keeps (comprehension f xs).
Proof.
  intros Hf; induction xs as [|x xs IH]; simpl; [apply keeps_ret|].
  apply keeps_bind; [apply Hf|]; intros y.
  apply keeps_bind; [apply IH|]; intros ys; apply keeps_ret.
Qed.

(** Decomposition of a query into steps that keep the position. *)
Ltac keeps_step :=
  lazymatch goal with
  | |- keeps (bind _ _) => apply keeps_bind; [|intros ?]
  | |- keeps (ret _) => apply keeps_ret
  | |- keeps (self _) => apply keeps_self
  | |- keeps (print _) => apply keeps_print
  | |- keeps (orraise _ _) => apply keeps_orraise
  | |- keeps (assign _) => apply keeps_assign; intros ? ? H; exact H
  | |- keeps (for_loop _ _ _) => apply keeps_for_loop; intros ? ?
  | |- keeps (comprehension _ _) => apply keeps_comprehension; intros ?
  | |- keeps (board_at _ _) => unfold board_at
  | |- keeps (char_at _ _) => unfold char_at
  | |- keeps (new_Move _ _ _ _ _) => unfold new_Move
  | |- keeps (if ?c then _ else _) => destruct c
  | |- keeps (match ?c with _ => _ end) => destruct c
  end; cbv beta zeta.

Ltac keeps_tac := repeat first [ assumption | keeps_step ].

Lemma keeps_search_for_pins_and_checks : keeps search_for_pins_and_checks.
Proof. unfold search_for_pins_and_checks; keeps_tac. Qed.

Lemma keeps_search_for_attacks (r c : Z) (ec : ascii) : keeps (search_for_attacks r c ec).
Proof. unfold search_for_attacks; keeps_tac. Qed.

Lemma keeps_search_for_material_stalemate : keeps search_for_material_stalemate.
Proof. unfold search_for_material_stalemate, active_scan, parity_scan; keeps_tac. Qed.

Lemma keeps_find_pin (r c : Z) : keeps (find_pin r c).
Proof. unfold find_pin; keeps_tac. Qed.

Lemma keeps_orraise_bind {A B : Type} (e : exn) (o : option A) (f : A -> M B) :
  (forall a, o = Some a -> keeps (f a)) -> keeps (bind (orraise e o) f).
Proof.
  intros H reply s0 s Hs; apply post_bind, post_orraise.
  intros a Ha; apply H; assumption.
Qed.

(** The calls of methods already shown to keep the position. *)
Ltac keeps_call :=
  lazymatch goal with
  | |- keeps search_for_pins_and_checks => apply keeps_search_for_pins_and_checks
  | |- keeps (search_for_attacks _ _ _) => apply keeps_search_for_attacks
  | |- keeps search_for_material_stalemate => apply keeps_search_for_material_stalemate
  | |- keeps (find_pin _ _) => apply keeps_find_pin
  end.

Ltac keeps_calls := repeat first [ keeps_call | keeps_step ].

Lemma keeps_pawn_capture (r c ma pr dc : Z) (ec : ascii) (pinned : bool)
    (dir : option Square) (st : list Move * bool) :
  keeps (pawn_capture r c ma pr dc ec pinned dir st).
Proof. unfold pawn_capture; keeps_tac. Qed.

Lemma keeps_get_pawn_moves (r c : Z) (moves : list Move) :
  keeps (get_pawn_moves r c moves).
Proof.
  unfold get_pawn_moves.
  repeat first
    [ lazymatch goal with
      | |- keeps (pawn_capture _ _ _ _ _ _ _ _ _) => apply keeps_pawn_capture
      end
    | keeps_call | keeps_step ].
Qed.

Lemma keeps_get_knight_moves (r c : Z) (moves : list Move) :
  keeps (get_knight_moves r c moves).
Proof. unfold get_knight_moves; keeps_calls. Qed.

Lemma keeps_get_sliding_moves (dirs : list Square) (r c : Z) (moves : list Move) :
  keeps (get_sliding_moves dirs r c moves).
Proof. unfold get_sliding_moves; keeps_calls. Qed.

Lemma keeps_get_king_side_castling_moves (r c : Z) (moves : list Move) :
  keeps (get_king_side_castling_moves r c moves).
Proof. unfold get_king_side_castling_moves; keeps_calls. Qed.

Lemma keeps_get_queen_side_castling_moves (r c : Z) (moves : list Move) :
  keeps (get_queen_side_castling_moves r c moves).
Proof. unfold get_queen_side_castling_moves; keeps_calls. Qed.

Lemma keeps_get_castling_moves (r c : Z) (moves : list Move) :
  keeps (get_castling_moves r c moves).
Proof.
  unfold get_castling_moves.
  repeat first
    [ lazymatch goal with
      | |- keeps (get_king_side_castling_moves _ _ _) =>
          apply keeps_get_king_side_castling_moves
      | |- keeps (get_queen_side_castling_moves _ _ _) =>
          apply keeps_get_queen_side_castling_moves
      end
    | keeps_call | keeps_step ].
Qed.

Lemma keeps_get_king_moves (r c : Z) (moves : list Move) :
  keeps (get_king_moves r c moves).
Proof.
  unfold get_king_moves.
  repeat first
    [ lazymatch goal with
      | |- keeps (get_castling_moves _ _ _) => apply keeps_get_castling_moves
      end
    | keeps_call | keeps_step ].
Qed.

Lemma keeps_move_functions (k : ascii) (gen : Z -> Z -> list Move -> M (list Move))
    (r c : Z) (moves : list Move) :
  move_functions k = Some gen -> keeps (gen r c moves).
Proof.
  unfold move_functions, get_bishop_moves, get_rook_moves, get_queen_moves.
  repeat match goal with
         | |- (if ?b then _ else _) = _ -> _ => destruct b
         end;
    intros E; try discriminate E; injection E as <-;
    lazymatch goal with
    | |- keeps (get_pawn_moves _ _ _) => apply keeps_get_pawn_moves
    | |- keeps (get_knight_moves _ _ _) => apply keeps_get_knight_moves
    | |- keeps (get_sliding_moves _ _ _ _) => apply keeps_get_sliding_moves
    | |- keeps (get_king_moves _ _ _) => apply keeps_get_king_moves
    end.
Qed.

Lemma keeps_get_all_possible_moves : keeps get_all_possible_moves.
Proof.
  unfold get_all_possible_moves.
  repeat first
    [ lazymatch goal with
      | |- keeps (bind (orraise _ (move_functions _)) _) =>
          apply keeps_orraise_bind; intros ? ?
      | H : move_functions _ = Some ?gen |- keeps (bind (?gen _ _ _) _) =>
          apply keeps_bind; [eapply keeps_move_functions; exact H | intros ?]
      end
    | keeps_step ].
Qed.

Lemma keeps_single_check_moves (kr kc : Z) : keeps (single_check_moves kr kc).
Proof.
  unfold single_check_moves.
  repeat first
    [ lazymatch goal with
      | |- keeps get_all_possible_moves => apply keeps_get_all_possible_moves
      end
    | keeps_step ].
Qed.

Lemma keeps_assemble_moves (kr kc : Z) : keeps (assemble_moves kr kc).
Proof.
  unfold assemble_moves.
  repeat first
    [ lazymatch goal with
      | |- keeps get_all_possible_moves => apply keeps_get_all_possible_moves
      | |- keeps (single_check_moves _ _) => apply keeps_single_check_moves
      | |- keeps (get_king_moves _ _ _) => apply keeps_get_king_moves
      end
    | keeps_step ].
Qed.

Lemma keeps_get_all_valid_moves : keeps get_all_valid_moves.
Proof.
  unfold get_all_valid_moves.
  repeat first
    [ lazymatch goal with
      | |- keeps (assemble_moves _ _) => apply keeps_assemble_moves
      end
    | keeps_call | keeps_step ].
Qed.

(** X1. Whenever [get_all_valid_moves] returns, the position is the one it
    was called on: grid, side to move, move log, en-passant target, castling
    rights and rights log are unchanged (the call only rewrites the cached
    check data, the terminal flags and, while it probes king moves, the king
    caches). *)
Theorem get_all_valid_moves_keeps_position :
  forall (s s' : GameState) (ms : list Move),
    yields (get_all_valid_moves s) (ms, s') -> same_game s s'.
Proof.
  intros s s' ms Hy.
  apply (keeps_get_all_valid_moves EmptyString s s (same_game_refl s) ms s').
  apply yields_answer; exact Hy.
Qed.

Lemma get_all_valid_moves_keeps_position_witness :
  exists ms s',
    yields (get_all_valid_moves new_game) (ms, s') /\ same_game new_game s'.
Proof.
  eexists; eexists.
  assert (H : yields (get_all_valid_moves new_game)
                (ltac:(let v := eval vm_compute in
                         (match get_all_valid_moves new_game with
                          | Ret x => x
                          | _ => ([], new_game)
                          end) in exact v))).
  { vm_compute; constructor. }
  split; [exact H|].
  exact (get_all_valid_moves_keeps_position _ _ _ H).
Defined.

(** ** The mutator's bookkeeping *)

Lemma update_castling_rights_shrinks (m : Move) (s : GameState) :
  returns (update_castling_rights m) s
    (fun _ s' =>
       exists rights,
         s' = with_current_castling_rights rights s
         /\ rights_le rights (current_castling_rights s)
         /\ (String.eqb (piece_moved m) "wK" = true ->
             wks rights = false /\ wqs rights = false)
         /\ (String.eqb (piece_moved m) "bK" = true ->
             bks rights = false /\ bqs rights = false)).
Proof.
  destruct s as [b w ml wk bk ic cs ps cm sm ep [r1 r2 r3 r4] rl].
  unfold update_castling_rights, clear_right.
  msteps; (eexists; split; [reflexivity|]);
    unfold rights_le; simpl;
    repeat split; intros; try congruence;
    repeat match goal with
           | E : String.eqb ?x ?y = true |- _ => apply String.eqb_eq in E
           end; congruence.
Qed.

Lemma pop_app {A : Type} (l : list A) (x : A) : Py.pop (l ++ [x]) = Some (l, x).
Proof. unfold Py.pop; rewrite rev_app_distr; simpl; rewrite rev_involutive; reflexivity. Qed.

Lemma pop_inv {A : Type} (l l' : list A) (x : A) :
  Py.pop l = Some (l', x) -> l = l' ++ [x].
Proof.
  unfold Py.pop; destruct (rev l) as [|y r] eqn:E; [discriminate|].
  intros H; injection H as <- <-.
  rewrite <- (rev_involutive l), E; reflexivity.
Qed.

Lemma getitem_last {A : Type} (l : list A) (x : A) :
  Py.getitem (l ++ [x]) (-1) = Some x.
Proof.
  unfold Py.getitem, Py.index; rewrite length_app; cbn [List.length].
  set (n := Z.of_nat (List.length l + 1)).
  assert (Hn : n = Z.of_nat (List.length l) + 1) by (subst n; lia).
  destruct ((0 <=? -1) && (-1 <? n)) eqn:E1; [lia|].
  destruct ((- n <=? -1) && (-1 <? 0)) eqn:E2; [|lia].
  replace (Z.to_nat (n + -1)) with (List.length l) by lia.
  rewrite nth_error_app2, Nat.sub_diag by lia; reflexivity.
Qed.

Lemma rights_copy (r : CastlingRights) :
  mkCastlingRights (wks r) (bks r) (wqs r) (bqs r) = r.
Proof. destruct r; reflexivity. Qed.

(** Steps through the mutator. *)
Ltac mutator_step :=
  lazymatch goal with
  | |- post _ (update_castling_rights _) _ _ =>
      eapply post_conseq;
      [ apply returns_post, update_castling_rights_shrinks
      | intros ? ? (? & -> & ? & ? & ?) ]
  | |- post _ (two_square_pawn_advance _) _ _ => unfold two_square_pawn_advance
  | _ => pstep
  end; cbv beta zeta.

Ltac state_simpl :=
  cbn [board white_to_move move_log white_king_location black_king_location
       current_player_is_in_check checks pins checkmate stalemate
       en_passant_possible current_castling_rights castling_rights_log
       with_board with_white_to_move with_move_log with_white_king_location
       with_black_king_location with_check_data with_pins with_checkmate
       with_stalemate with_en_passant_possible with_current_castling_rights
       with_castling_rights_log] in *.

(** X2. Whenever [make_move] returns it has granted no castling right: each
    of the four flags that is set afterwards was set before; and after a move
    of the token "wK" (resp. "bK") both white (resp. black) flags are
    cleared. *)
Theorem make_move_never_grants_rights :
  forall (reply : string) (m : Move) (s s' : GameState),
    answer reply (make_move m s) = Some (tt, s') ->
    rights_le (current_castling_rights s') (current_castling_rights s)
    /\ (piece_moved m = "wK" ->
        wks (current_castling_rights s') = false
        /\ wqs (current_castling_rights s') = false)
    /\ (piece_moved m = "bK" ->
        bks (current_castling_rights s') = false
        /\ bqs (current_castling_rights s') = false).
Proof.
  intros reply m s s' H.
  assert (Hp : post reply (make_move m) s
                 (fun _ s' =>
                    rights_le (current_castling_rights s') (current_castling_rights s)
                    /\ (String.eqb (piece_moved m) "wK" = true ->
                        wks (current_castling_rights s') = false
                        /\ wqs (current_castling_rights s') = false)
                    /\ (String.eqb (piece_moved m) "bK" = true ->
                        bks (current_castling_rights s') = false
                        /\ bqs (current_castling_rights s') = false))).
  { unfold make_move; repeat mutator_step; state_simpl.
    all: split; [assumption|]; split; intros E; first [discriminate E | auto]. }
  destruct (Hp tt s' H) as (H1 & H2 & H3).
  split; [exact H1|].
  split; intros E; [apply H2 | apply H3]; rewrite E; reflexivity.
Qed.

Lemma make_move_never_grants_rights_witness :
  played game_rook_lift after_rook_lift
  /\ current_castling_rights after_rook_lift = mkCastlingRights true true true false
  /\ Move_init (7, 4) (6, 4) (board after_rook_lift) false false false
     = Some king_e1_e2
  /\ exists s',
       answer EmptyString (make_move king_e1_e2 after_rook_lift) = Some (tt, s')
       /\ current_castling_rights s' = mkCastlingRights false true false false
       /\ rights_le (current_castling_rights s')
            (current_castling_rights after_rook_lift)
       /\ (wks (current_castling_rights s') = false
           /\ wqs (current_castling_rights s') = false)
       /\ (piece_moved king_e1_e2 = "bK" ->
           bks (current_castling_rights s') = false
           /\ bqs (current_castling_rights s') = false).
Proof.
  split; [vm_compute; reflexivity|].
  split; [reflexivity|].
  split; [reflexivity|].
  eexists; split; [vm_compute; reflexivity|].
  split; [reflexivity|].
  destruct (make_move_never_grants_rights EmptyString king_e1_e2 after_rook_lift
              _ eq_refl) as (Hle & Hw & Hb).
  split; [exact Hle|].
  split; [exact (Hw eq_refl) | exact Hb].
Defined.

Lemma has_kind_char (k a : ascii) (p : string) :
  Py.char p 1 = Some a -> has_kind k p = Ascii.eqb a k.
Proof. intros H; unfold has_kind; rewrite H; reflexivity. Qed.

(** X3. Whenever [make_move] returns, the en-passant target is set exactly
    when a pawn token moved two rows: it is then the square of the
    destination column halfway between the two rows, and it is empty after
    every other move. *)
Theorem make_move_en_passant_target :
  forall (reply : string) (m : Move) (s s' : GameState),
    answer reply (make_move m s) = Some (tt, s') ->
    (two_rows m = true ->
     exists mid,
       en_passant_possible s' = Some (mid, end_c m)
       /\ mid - start_r m = end_r m - mid)
    /\ (two_rows m = false -> en_passant_possible s' = None).
Proof.
  intros reply m s s' H.
  assert (Hp : post reply (make_move m) s
                 (fun _ s' =>
                    en_passant_possible s'
                    = if two_rows m
                      then Some ((start_r m + end_r m) / 2, end_c m)
                      else None)).
  { unfold make_move; repeat mutator_step; state_simpl.
    all: unfold two_rows;
      match goal with
      | Hk : Py.char (piece_moved _) 1 = Some _ |- _ =>
          rewrite (has_kind_char _ _ _ Hk)
      end;
      match goal with
      | E : _ && _ = _ |- _ => rewrite E
      end; reflexivity. }
  specialize (Hp tt s' H); cbv beta in Hp.
  split; intros E; rewrite E in Hp; [|exact Hp].
  exists ((start_r m + end_r m) / 2); split; [exact Hp|].
  unfold two_rows in E; apply andb_true_iff in E as [_ E].
  assert (Hd : start_r m - end_r m = 2 \/ start_r m - end_r m = -2) by lia.
  destruct Hd as [Hd|Hd].
  - replace (start_r m + end_r m) with ((end_r m + 1) * 2) by lia.
    rewrite Z.div_mul by lia; lia.
  - replace (start_r m + end_r m) with ((start_r m + 1) * 2) by lia.
    rewrite Z.div_mul by lia; lia.
Qed.

Lemma make_move_en_passant_target_witness :
  exists s',
    answer EmptyString (make_move pawn_e2_e4 new_game) = Some (tt, s')
    /\ (two_rows pawn_e2_e4 = true ->
        exists mid,
          en_passant_possible s' = Some (mid, end_c pawn_e2_e4)
          /\ mid - start_r pawn_e2_e4 = end_r pawn_e2_e4 - mid)
    /\ (two_rows pawn_e2_e4 = false -> en_passant_possible s' = None).
Proof.
  eexists; split; [vm_compute; reflexivity|].
  apply (make_move_en_passant_target EmptyString pawn_e2_e4 new_game).
  vm_compute; reflexivity.
Defined.

Lemma logs_stay_aligned :
  forall (reply : string) (m : Move) (s s' : GameState),
    logs_aligned s ->
    (answer reply (make_move m s) = Some (tt, s') ->
     logs_aligned s' /\ move_log s' = move_log s ++ [m])
    /\ (answer reply (undo_move s) = Some (tt, s') ->
        logs_aligned s'
        /\ (move_log s = [] \/ exists m', move_log s = move_log s' ++ [m'])).
Proof.
  intros reply m s s' [Hlen Hlast]; split; intros H.
  - assert (Hp : post reply (make_move m) s
                   (fun _ s' =>
                      move_log s' = move_log s ++ [m]
                      /\ castling_rights_log s'
                         = castling_rights_log s ++ [current_castling_rights s'])).
    { unfold make_move; repeat mutator_step; state_simpl.
      all: rewrite rights_copy; split; reflexivity. }
    destruct (Hp tt s' H) as [Hm Hr]; split; [|exact Hm].
    split.
    + rewrite Hm, Hr, !length_app; simpl; lia.
    + rewrite Hr; apply getitem_last.
  - assert (Hp : post reply undo_move s
                   (fun _ s' =>
                      (move_log s = [] /\ s' = s)
                      \/ exists m' c,
                           move_log s = move_log s' ++ [m']
                           /\ castling_rights_log s = castling_rights_log s' ++ [c]
                           /\ Py.getitem (castling_rights_log s') (-1)
                              = Some (current_castling_rights s'))).
    { unfold undo_move.
      pstep. pstep.
      destruct (0 <? Z.of_nat (List.length (move_log s))) eqn:E0;
        [|pstep; left; split; [|reflexivity];
          destruct (move_log s) eqn:El;
          [reflexivity | exfalso; apply Z.ltb_ge in E0; cbn [List.length] in E0; lia]].
      repeat mutator_step; state_simpl.
      all: right;
        match goal with
        | E1 : Py.pop (move_log _) = Some ?x,
          E2 : Py.pop (castling_rights_log _) = Some ?y |- _ =>
            destruct x as [ml m']; destruct y as [rl c];
            apply pop_inv in E1; apply pop_inv in E2;
            cbn [fst snd] in *; exists m', c
        end;
        rewrite rights_copy; auto. }
    destruct (Hp tt s' H) as [[He ->]|(m' & c & Hm & Hr & Hl)].
    + split; [split; assumption | left; exact He].
    + split; [|right; exists m'; exact Hm].
      split; [|exact Hl].
      rewrite Hm, Hr, !length_app in Hlen; simpl in Hlen; lia.
Qed.

(** X4. The two logs stay in step under [make_move]: if the castling-rights
    log is one entry longer than the move log and ends with the current
    rights, then whenever [make_move] returns the move has been appended to
    the move log and the same relation holds again. *)
Theorem make_move_keeps_logs_aligned :
  forall (reply : string) (m : Move) (s s' : GameState),
    logs_aligned s ->
    answer reply (make_move m s) = Some (tt, s') ->
    logs_aligned s' /\ move_log s' = move_log s ++ [m].
Proof.
  intros reply m s s' Hal H.
  exact (proj1 (logs_stay_aligned reply m s s' Hal) H).
Qed.

Lemma logs_aligned_new_game : logs_aligned new_game.
Proof. split; reflexivity. Qed.

Lemma make_move_keeps_logs_aligned_witness :
  logs_aligned new_game
  /\ exists s',
       answer EmptyString (make_move pawn_e2_e4 new_game) = Some (tt, s')
       /\ logs_aligned s'
       /\ move_log s' = move_log new_game ++ [pawn_e2_e4].
Proof.
  split; [exact logs_aligned_new_game|].
  eexists; split; [vm_compute; reflexivity|].
  apply (make_move_keeps_logs_aligned EmptyString pawn_e2_e4 new_game);
    [exact logs_aligned_new_game | vm_compute; reflexivity].
Defined.

(** X5. The two logs stay in step under [undo_move]: from a state where the
    rights log is one entry longer than the move log and ends with the
    current rights, whenever [undo_move] returns the same relation holds
    again, and either the move log was empty or exactly its last entry has
    been removed. *)
Theorem undo_move_keeps_logs_aligned :
  forall (reply : string) (s s' : GameState),
    logs_aligned s ->
    answer reply (undo_move s) = Some (tt, s') ->
    logs_aligned s'
    /\ (move_log s = [] \/ exists m', move_log s = move_log s' ++ [m']).
Proof.
  intros reply s s' Hal H.
  exact (proj2 (logs_stay_aligned reply pawn_e2_e4 s s' Hal) H).
Qed.

Lemma logs_aligned_after_e2_e4 : logs_aligned after_e2_e4.
Proof. split; reflexivity. Qed.

Lemma undo_move_keeps_logs_aligned_witness :
  logs_aligned after_e2_e4
  /\ exists s',
       answer EmptyString (undo_move after_e2_e4) = Some (tt, s')
       /\ logs_aligned s'
       /\ (move_log after_e2_e4 = []
           \/ exists m', move_log after_e2_e4 = move_log s' ++ [m']).
Proof.
  split; [exact logs_aligned_after_e2_e4|].
  eexists; split; [vm_compute; reflexivity|].
  apply (undo_move_keeps_logs_aligned EmptyString after_e2_e4);
    [exact logs_aligned_after_e2_e4 | vm_compute; reflexivity].
Defined.

(** ** Making and undoing a move *)

Lemma wf_row_ext (row row' : list string) :
  List.length row = 8%nat -> List.length row' = 8%nat ->
  (forall c, 0 <= c < 8 -> Py.getitem row c = Py.getitem row' c) ->
  row = row'.
Proof.
  intros Hl Hl' H; apply nth_error_ext; intros j.
  destruct (Nat.lt_ge_cases j 8) as [Hj|Hj].
  - specialize (H (Z.of_nat j) ltac:(lia)).
    rewrite !getitem_nth in H by lia.
    rewrite Nat2Z.id in H; exact H.
  - rewrite (proj2 (nth_error_None row j)), (proj2 (nth_error_None row' j)) by lia.
    reflexivity.
Qed.

(** Two well-formed grids with the same tokens on the 64 squares are equal. *)
Lemma wf_board_ext (b b' : Board) :
  wf_board b -> wf_board b' ->
  (forall r c, on_board r c = true -> cell b r c = cell b' r c) ->
  b = b'.
Proof.
  intros Hwf Hwf' H; apply nth_error_ext; intros i.
  destruct (Nat.lt_ge_cases i 8) as [Hi|Hi].
  - destruct (wf_board_row b (Z.of_nat i) Hwf ltac:(lia)) as (row & Hrow & Hl & _).
    destruct (wf_board_row b' (Z.of_nat i) Hwf' ltac:(lia)) as (row' & Hrow' & Hl' & _).
    pose proof Hrow as Hn; pose proof Hrow' as Hn'.
    rewrite getitem_nth, Nat2Z.id in Hn, Hn' by (destruct Hwf, Hwf'; lia).
    rewrite Hn, Hn'; f_equal.
    apply wf_row_ext; [assumption | assumption|].
    intros c Hc.
    specialize (H (Z.of_nat i) c ltac:(unfold on_board; lia)).
    unfold cell in H; rewrite Hrow, Hrow' in H; exact H.
  - destruct Hwf as [Hl _], Hwf' as [Hl' _].
    rewrite (proj2 (nth_error_None b i)), (proj2 (nth_error_None b' i)) by lia.
    reflexivity.
Qed.

Lemma square_eq_dec (a b : Square) : {a = b} + {a <> b}.
Proof. decide equality; apply Z.eq_dec. Qed.

(** Rewriting the token of a square through the writes made so far. *)
Ltac grid_lookup :=
  repeat match goal with
         | H : cell ?b ?r ?c = Some _ |- context [cell ?b ?r ?c] => rewrite H
         | H : forall r' c', on_board r' c' = true -> _ -> cell ?b r' c' = _
           |- context [cell ?b ?r ?c] =>
             rewrite (H r c) by (first [assumption | congruence])
         end.

(** Steps through [make_move] followed by [undo_move] on a well-formed grid. *)
Ltac rstep :=
  lazymatch goal with
  | |- returns (orraise _ (Py.pop (_ ++ [_]))) _ _ =>
      rewrite pop_app; apply returns_orraise; eexists; split; [reflexivity|]
  | |- returns (orraise _ (Py.getitem _ (-1))) _ _ =>
      apply returns_orraise; eexists; split; [eassumption|]
  | |- returns (if true then _ else _) _ _ => cbv iota
  | |- returns (if false then _ else _) _ _ => cbv iota
  | |- returns (if ?c then _ else _) _ _ =>
      first [ match goal with
              | H : c = _ |- _ => rewrite H
              end
            | destruct c eqn:? ]
  | |- returns (update_castling_rights _) _ _ =>
      eapply returns_conseq;
      [ apply update_castling_rights_returns | intros ? ? [? ->] ]
  | _ => wstep
  end; cbv beta zeta; state_simpl;
  cbn [start_r start_c end_r end_c piece_moved piece_captured
       is_pawn_promotion is_en_passant is_castling fst snd] in *.

(** X6. On a well-formed grid, for a move without special flags built by
    [Move.__init__] from the current grid between squares of the board, with
    the rights log ending in the current rights and the king cache of a moved
    king holding its square: [make_move] returns, [undo_move] then returns,
    and the state is the original one with the en-passant target emptied --
    grid, side to move, logs, king caches, rights and every other field are
    restored exactly. *)
Theorem make_then_undo_plain_move :
  forall (s : GameState) (st en : Square) (m : Move),
    wf_board (board s) ->
    on_board (fst st) (snd st) = true ->
    on_board (fst en) (snd en) = true ->
    Move_init st en (board s) false false false = Some m ->
    Py.getitem (castling_rights_log s) (-1) = Some (current_castling_rights s) ->
    (piece_moved m = "wK" -> white_king_location s = st) ->
    (piece_moved m = "bK" -> black_king_location s = st) ->
    exists s1,
      make_move m s = Ret (tt, s1)
      /\ undo_move s1 = Ret (tt, with_en_passant_possible None s).
Proof.
  intros s [sr sc] [er ec] m Hwf Hst Hen Hm Hlast Hwk Hbk.
  cbn [fst snd] in *.
  destruct (wf_board_cell _ _ _ Hwf Hst) as (pm & Hpm & Hlpm).
  destruct (wf_board_cell _ _ _ Hwf Hen) as (pc & Hpc & Hlpc).
  unfold Move_init in Hm; cbn [fst snd] in Hm; rewrite Hpm, Hpc in Hm.
  injection Hm as <-.
  cbn [piece_moved] in Hwk, Hbk.
  enough (H : returns
                (make_move (mkMove sr sc er ec pm pc false false false
                              (sr * 1000 + sc * 100 + er * 10 + ec * 1))) s
                (fun _ s1 =>
                   returns undo_move s1
                     (fun _ s2 => s2 = with_en_passant_possible None s))).
  { destruct H as ([] & s1 & H1 & [] & s2 & H2 & ->).
    exists s1; split; assumption. }
  destruct s as [b w ml wk bk ic cs ps cm sm ep cur rl]; state_simpl.
  unfold make_move;
    cbn [start_r start_c end_r end_c piece_moved piece_captured
         is_pawn_promotion is_en_passant is_castling].
  repeat rstep.
  all: unfold undo_move.
  all: do 2 rstep.
  all: replace (0 <? Z.of_nat (List.length (ml ++ [_]))) with true
    by (symmetry; apply Z.ltb_lt; rewrite length_app; cbn [List.length]; lia).
  all: repeat rstep.
  all: cbn [fst snd start_r start_c end_r end_c piece_moved piece_captured
            is_pawn_promotion is_en_passant is_castling] in *.
  all: repeat rstep.
  all: repeat match goal with
              | H1 : Py.char ?p ?i = Some ?a, H2 : Py.char ?p ?i = Some ?b |- _ =>
                  rewrite H1 in H2; injection H2 as <-
              end.
  all: try congruence.
  all: cbv [with_current_castling_rights with_castling_rights_log
            with_en_passant_possible with_white_king_location
            with_black_king_location with_white_to_move with_board
            with_move_log board white_to_move move_log white_king_location
            black_king_location current_player_is_in_check checks pins
            checkmate stalemate en_passant_possible current_castling_rights
            castling_rights_log];
       rewrite rights_copy, negb_involutive.
  all: f_equal.
  all: try (symmetry;
            first [apply Hwk | apply Hbk]; apply String.eqb_eq; assumption).
  all: apply wf_board_ext; [assumption | assumption|]; intros r c Hon.
  all: destruct (square_eq_dec (r, c) (er, ec)) as [E|E];
         [injection E as -> ->; grid_lookup; reflexivity|].
  all: destruct (square_eq_dec (r, c) (sr, sc)) as [E'|E'];
         [injection E' as -> ->|]; grid_lookup; reflexivity.
Qed.

Lemma make_then_undo_plain_move_witness :
  Move_init (7, 6) (5, 5) (board new_game) false false false = Some knight_g1_f3
  /\ exists s1,
       make_move knight_g1_f3 new_game = Ret (tt, s1)
       /\ undo_move s1 = Ret (tt, with_en_passant_possible None new_game).
Proof.
  split; [reflexivity|].
  apply (make_then_undo_plain_move new_game (7, 6) (5, 5) knight_g1_f3);
    first [ exact wf_board_new_game | reflexivity | intros H; discriminate H ].
Defined.
